(** * caliban.gke.utils: a shallow embedding and its verification

    The module under study is [caliban/gke/utils.py].  Its functions are
    string adapters, a validator over a limit dictionary, a quota
    translator, an interactive prompt and a polling loop, most of them
    wrapped by the [trap] decorator.

    Modelling conventions.
    - Python [str] is Stdlib [string], read as ASCII text; the case
      mappings act on the ASCII letters and leave every other character
      alone.
    - Python [int] is [Z]; the interpreter's optional cap on the number of
      digits of a conversion is not modelled.
    - A dictionary is a [gmap] with string keys.  The values found in the
      JSON documents handled here are the scalars of [pyval].  A float is
      given by what the module observes of it, the text [str()] renders
      and the integer [int()] truncates it to; no arithmetic on floats is
      modelled.
    - A call that may raise returns a [result]; the exception classes are
      those of [exn], split by [is_Exception] into the ones derived from
      [Exception] and the ones derived from [BaseException] only.
    - Standard input, standard output, the clock and the remote API are
      explicit: a function that touches them takes what is left of the
      input script and the events so far and returns both. *)

From Stdlib Require Import ZArith NArith Ascii String List Lia.
From stdpp Require Import base option list strings gmap pretty.

Local Open Scope Z_scope.

(** ** Python runtime: exceptions, values, builtins *)

Module Py.

(** The exception classes that the embedded code can meet. *)
Inductive exn : Type :=
| KeyError
| TypeError
| ValueError
| AttributeError
| EOFError
| HttpError
| OverflowError
| KeyboardInterrupt
| SystemExit.

(** [isinstance(e, Exception)]: [KeyboardInterrupt] and [SystemExit]
    derive from [BaseException] directly. *)
Definition is_Exception (e : exn) : bool :=
  match e with
  | KeyboardInterrupt | SystemExit => false
  | _ => true
  end.

Inductive result (A : Type) : Type :=
| Return (a : A)
| Raise (e : exn).
Arguments Return {A} a.
Arguments Raise {A} e.

Definition bind {A B} (m : result A) (k : A → result B) : result B :=
  match m with
  | Return a => k a
  | Raise e => Raise e
  end.

#[global] Instance result_ret : MRet result := @Return.
#[global] Instance result_bind : MBind result := λ A B k m, bind m k.

(** A float, as far as [str()] and [int()] tell: a finite one by its
    rendering (['24.0'], ['4.5'], ['1e+16']) and its truncation towards
    zero, beside the infinities and the not-a-number. *)
Inductive pyfloat : Type :=
| Finite (rendering : string) (truncation : Z)
| Infinite (negative : bool)
| NaN.

#[global] Instance pyfloat_eq_dec : EqDecision pyfloat.
Proof. solve_decision. Defined.

(** Scalars stored in the dictionaries of this module. *)
Inductive pyval : Type :=
| PyInt (z : Z)
| PyFloat (x : pyfloat)
| PyStr (s : string)
| PyNone.

#[global] Instance pyval_eq_dec : EqDecision pyval.
Proof. solve_decision. Defined.

(** [d[key]]: a missing key raises [KeyError]. *)
Definition getitem {V} (d : gmap string V) (key : string) : result V :=
  match d !! key with
  | Some v => Return v
  | None => Raise KeyError
  end.

(** *** Characters *)

Definition LF : ascii := "010"%char.

Definition code (c : ascii) : N := N_of_ascii c.

Definition in_range (lo hi : N) (c : ascii) : bool :=
  ((lo <=? code c) && (code c <=? hi))%N.

Definition is_digit : ascii → bool := in_range 48 57.
Definition is_lower : ascii → bool := in_range 97 122.
Definition is_upper : ascii → bool := in_range 65 90.

(** Whitespace skipped by [int()] around an ASCII literal: TAB..CR and
    the space. *)
Definition is_space (c : ascii) : bool :=
  in_range 9 13 c || in_range 32 32 c.

Definition lower_char (c : ascii) : ascii :=
  if is_upper c then ascii_of_N (code c + 32) else c.

Definition upper_char (c : ascii) : ascii :=
  if is_lower c then ascii_of_N (code c - 32) else c.

Fixpoint map_chars (f : ascii → ascii) (s : string) : string :=
  match s with
  | EmptyString => EmptyString
  | String c r => String (f c) (map_chars f r)
  end.

(** [s.lower()] and [s.upper()]. *)
Definition lower : string → string := map_chars lower_char.
Definition upper : string → string := map_chars upper_char.

Fixpoint all_chars (f : ascii → bool) (s : string) : bool :=
  match s with
  | EmptyString => true
  | String c r => f c && all_chars f r
  end.

(** *** [str()] and [int()] *)

(** [str(v)]: an integer is rendered in decimal, with a minus sign when
    negative. *)
Definition str (v : pyval) : string :=
  match v with
  | PyInt z => pretty z
  | PyFloat (Finite rendering _) => rendering
  | PyFloat (Infinite negative) => if negative then "-inf" else "inf"
  | PyFloat NaN => "nan"
  | PyStr s => s
  | PyNone => "None"
  end.

Definition digit_val (c : ascii) : Z := Z.of_N (code c) - 48.

Fixpoint lstrip (s : string) : string :=
  match s with
  | String c r => if is_space c then lstrip r else s
  | EmptyString => EmptyString
  end.

(** The digit part of an integer literal: decimal digits, where single
    underscores may stand between two digits.  Returns the value read
    and the unread rest. *)
Fixpoint int_digits (prev_digit : bool) (acc : Z) (s : string)
  : option (Z * string) :=
  match s with
  | EmptyString => if prev_digit then Some (acc, EmptyString) else None
  | String c r =>
      if is_digit c then int_digits true (10 * acc + digit_val c) r
      else if Ascii.eqb c "_" then
        match prev_digit, r with
        | true, String c' _ =>
            if is_digit c' then int_digits false acc r else None
        | _, _ => None
        end
      else if prev_digit then Some (acc, s) else None
  end.

Definition int_of_string (s : string) : result Z :=
  let t := lstrip s in
  let '(sign, t) :=
    match t with
    | String "-" r => (-1, r)
    | String "+" r => (1, r)
    | _ => (1, t)
    end in
  match int_digits false 0 t with
  | Some (n, rest) =>
      if all_chars is_space rest then Return (sign * n) else Raise ValueError
  | None => Raise ValueError
  end.

(** [int(v)]. *)
Definition int (v : pyval) : result Z :=
  match v with
  | PyInt z => Return z
  | PyFloat (Finite _ truncation) => Return truncation
  | PyFloat (Infinite _) => Raise OverflowError
  | PyFloat NaN => Raise ValueError
  | PyStr s => int_of_string s
  | PyNone => Raise TypeError
  end.

(** *** [time.sleep()] *)

(** The longest interval, in seconds, that fits the 64-bit count of
    nanoseconds of the interpreter's clock. *)
Definition sleep_max : Z := 9223372036.

(** [sleep(sec)] for an integer [sec]: a negative interval raises
    [ValueError], one beyond [sleep_max] raises [OverflowError]. *)
Definition sleep (sec : Z) : result unit :=
  if bool_decide (sec < 0) then Raise ValueError
  else if bool_decide (sleep_max < sec) then Raise OverflowError
  else Return tt.

(** *** Enumerations *)

(** An [Enum] class: its members in definition order and their names. *)
Class PyEnum (E : Type) : Type := {
  enum_members : list E;
  enum_name : E → string;
}.

(** [E[key]]: the member of that name, [KeyError] when there is none. *)
Definition enum_getitem {E} `{PyEnum E} (key : string) : result E :=
  match List.find (λ m, String.eqb (enum_name m) key) enum_members with
  | Some m => Return m
  | None => Raise KeyError
  end.

End Py.

Import Py.

(** ** The regular expressions of the module

    Each pattern of the source is anchored and is a sequence of literal
    text, one greedy character-class repetition and the end assertion.
    The class never contains the character that follows it in the
    pattern, so the longest repetition is the only candidate, and the two
    alternatives of [(v2|v3)] exclude each other: the matchers below need
    no backtracking. *)

Module Re.

(** Literal text at the current position; returns what follows it. *)
Fixpoint literal (p s : string) : option string :=
  match p with
  | EmptyString => Some s
  | String a p' =>
      match s with
      | String b s' => if Ascii.eqb a b then literal p' s' else None
      | EmptyString => None
      end
  end.

(** The longest prefix made of characters of the class, and the rest. *)
Fixpoint span (cls : ascii → bool) (s : string) : string * string :=
  match s with
  | String c r =>
      if cls c then let '(m, rest) := span cls r in (String c m, rest)
      else (EmptyString, s)
  | EmptyString => (EmptyString, EmptyString)
  end.

(** [[cls]+]: at least one character of the class. *)
Definition plus (cls : ascii → bool) (s : string) : option (string * string) :=
  match span cls s with
  | (EmptyString, _) => None
  | (m, rest) => Some (m, rest)
  end.

(** [$] outside MULTILINE mode: holds at the end of the string and also
    just before a newline that is the last character of the string. *)
Definition at_dollar (s : string) : bool :=
  match s with
  | EmptyString => true
  | String c EmptyString => Ascii.eqb c LF
  | _ => false
  end.

(** The classes [[a-z0-9]] and [[A-Z0-9]]. *)
Definition lower_alnum (c : ascii) : bool := is_lower c || is_digit c.
Definition upper_alnum (c : ascii) : bool := is_upper c || is_digit c.

(** [^(?P<tpu>(v2|v3))-(?P<count>[0-9]+)$]; the groups [tpu], [count]. *)
Definition tpu_re (s : string) : option (string * string) :=
  '(tpu, r) ← match literal "v2" s with
              | Some r => Some ("v2", r)
              | None => (λ r, ("v3", r)) <$> literal "v3" s
              end;
  r ← literal "-" r;
  '(count, r) ← plus is_digit r;
  if at_dollar r then Some (tpu, count) else None.

(** [^nvidia-tesla-(?P<type>[a-z0-9]+)$]; the group [type]. *)
Definition gpu_re (s : string) : option string :=
  r ← literal "nvidia-tesla-" s;
  '(type, r) ← plus lower_alnum r;
  if at_dollar r then Some type else None.

(** [^NVIDIA_(?P<gpu>[A-Z0-9]+)_GPUS$]; the group [gpu]. *)
Definition quota_gpu_re (s : string) : option string :=
  r ← literal "NVIDIA_" s;
  '(gpu, r) ← plus upper_alnum r;
  r ← literal "_GPUS" r;
  if at_dollar r then Some gpu else None.

(** [pattern.match(v)]: a subject that is not a string raises [TypeError]. *)
Definition re_match {G} (pattern : string → option G) (v : pyval)
  : result (option G) :=
  match v with
  | PyStr s => Return (pattern s)
  | _ => Raise TypeError
  end.

(** [m.groupdict()]: on [None] the attribute lookup raises. *)
Definition groupdict {G} (m : option G) : result G :=
  match m with
  | Some g => Return g
  | None => Raise AttributeError
  end.

End Re.

(** ** Types imported by the module *)

(** Modelled from the spec: [caliban.cloud.types.TPU] is not among the
    sources; the spec gives the TPU version tags v2 and v3. *)
Inductive TPU : Type := V2 | V3.

#[global] Instance TPU_eq_dec : EqDecision TPU.
Proof. solve_decision. Defined.

#[global] Instance TPU_enum : PyEnum TPU := {|
  enum_members := [V2; V3];
  enum_name t := match t with V2 => "V2" | V3 => "V3" end;
|}.

(** Modelled from the spec: [caliban.cloud.types.TPUSpec], a pair of an
    accelerator kind and a count. *)
Record TPUSpec : Type := mkTPUSpec { tpu : TPU; tpu_count : Z }.

(** Modelled from the spec: [caliban.cloud.types.GPUSpec], a pair of an
    accelerator kind and a count, over the GPU enumeration [G]. *)
Record GPUSpec (G : Type) : Type := mkGPUSpec { gpu : G; count : Z }.
Arguments mkGPUSpec {G} gpu count.
Arguments gpu {G} g.
Arguments count {G} g.

(** Modelled from the spec: [caliban.gke.types.OpStatus] is not among the
    sources; the spec names the states pending, running, done, aborting. *)
Inductive OpStatus : Type := PENDING | RUNNING | DONE | ABORTING.

#[global] Instance OpStatus_eq_dec : EqDecision OpStatus.
Proof. solve_decision. Defined.

#[global] Instance OpStatus_enum : PyEnum OpStatus := {|
  enum_members := [PENDING; RUNNING; DONE; ABORTING];
  enum_name s :=
    match s with
    | PENDING => "PENDING"
    | RUNNING => "RUNNING"
    | DONE => "DONE"
    | ABORTING => "ABORTING"
    end;
|}.

(** An enumeration of GPU models for the concrete examples.  The
    module's own [GPU] enumeration is imported from
    [caliban.cloud.types]; every definition and theorem below is stated
    for an arbitrary enumeration. *)
Inductive TeslaGPU : Type := K80 | V100.

#[global] Instance TeslaGPU_eq_dec : EqDecision TeslaGPU.
Proof. solve_decision. Defined.

#[global] Instance TeslaGPU_countable : Countable TeslaGPU.
Proof.
  refine (inj_countable' (λ g, match g with K80 => false | V100 => true end)
                         (λ b : bool, if b then V100 else K80) _).
  by intros [].
Qed.

#[global] Instance TeslaGPU_enum : PyEnum TeslaGPU := {|
  enum_members := [K80; V100];
  enum_name g := match g with K80 => "K80" | V100 => "V100" end;
|}.

(** ** Effects *)

(** What the logging calls record.  The text of a message is not
    modelled, only its kind and the values it is built from. *)
Inductive log_record : Type :=
| LogException (e : exn)
| LogUnsupportedType (gpu_name limit_type : string)
| LogCountUnsupported (gpu_name : string) (requested : Z)
                      (limit_type : string) (maximum : Z).

(** Observable actions, in the order they happen. *)
Inductive event : Type :=
| Query (name : string)
| Sleep (sec : Z)
| Prompt (text : string)
| Print (text : string).

(** The state after running an interactive function: its outcome, the
    part of the input script it has not consumed, and its events. *)
Record run (I O : Type) : Type := Run {
  outcome : O;
  unread : list I;
  trace : list event;
}.
Arguments Run {I O} outcome unread trace.
Arguments outcome {I O} r.
Arguments unread {I O} r.
Arguments trace {I O} r.

(** What the operations endpoint does on one [get(...).execute()]. *)
Inductive reply : Type :=
| Responds (rsp : gmap string pyval)
| Fails (e : exn).

(** ** The functions of [caliban/gke/utils.py] *)

Abbreviation dict := (gmap string pyval).

(** [trap(error_value, silent)(fn)]: the wrapper built by the decorator.
    [except Exception] catches the exceptions derived from [Exception];
    any other one leaves the wrapper as it came. *)
Definition trap {A B} (error_value : B) (silent : bool) (fn : A → result B)
  : A → result B * list log_record :=
  λ args,
    match fn args with
    | Raise e =>
        if is_Exception e
        then (Return error_value, if silent then [] else [LogException e])
        else (Raise e, [])
    | Return response => (Return response, [])
    end.

(** The same wrapper around a call that also consumes input and emits
    events; [None] as outcome is a call that has not come back. *)
Definition trap_run {I B} (error_value : B) (silent : bool)
    (r : run I (option (result B))) : run I (option (result B)) :=
  Run ((λ o, (trap error_value silent (λ _ : unit, o) tt).1) <$> outcome r)
      (unread r) (trace r).

(** [user_verify(msg, default)], reading the lines of [stdin]. *)
Fixpoint user_verify (msg : string) (default : bool)
    (stdin : list string) (out : list event) : run string (result bool) :=
  let choice_str := if default then "[Yn]" else "[yN]" in
  let out :=
    out ++ [Prompt (String LF " " +:+ msg +:+ " " +:+ choice_str +:+ ": ")] in
  match stdin with
  | [] => Run (Raise EOFError) [] out
  | line :: stdin =>
      let ok := lower line in
      if decide (String.length ok = 0%nat) then Run (Return default) stdin out
      else if bool_decide (ok ∉ ["y"; "n"]) then
        user_verify msg default stdin (out ++ [Print "please enter y or n"])
      else Run (Return (bool_decide (ok = "y"))) stdin out
  end.

(** The loop [_wait] of [wait_for_operation]: one reply of [cluster_api]
    is consumed per query. *)
Fixpoint _wait (condition_strings : list string) (name : string)
    (sleep_sec : Z) (cluster_api : list reply) (tr : list event)
  : run reply (option (result (option dict))) :=
  let tr := tr ++ [Query name] in
  match cluster_api with
  | [] => Run None [] tr
  | Fails e :: cluster_api => Run (Some (Raise e)) cluster_api tr
  | Responds rsp :: cluster_api =>
      match getitem rsp "status" with
      | Raise e => Run (Some (Raise e)) cluster_api tr
      | Return status =>
          if bool_decide (status ∈ PyStr <$> condition_strings) then
            Run (Some (Return (Some rsp))) cluster_api tr
          else
            match sleep sleep_sec with
            | Raise e => Run (Some (Raise e)) cluster_api tr
            | Return _ =>
                _wait condition_strings name sleep_sec cluster_api
                      (tr ++ [Sleep sleep_sec])
            end
      end
  end.

(** The body of [wait_for_operation].  The spinner of the source only
    draws on the terminal: both branches run [_wait]. *)
Definition wait_for_operation_fn (cluster_api : list reply) (name : string)
    (conditions : list OpStatus) (sleep_sec : Z) (message : string)
    (spinner : bool) : run reply (option (result (option dict))) :=
  if decide (length conditions = 0%nat) then
    Run (Some (Return None)) cluster_api []
  else
    let condition_strings := enum_name <$> conditions in
    if spinner then _wait condition_strings name sleep_sec cluster_api []
    else _wait condition_strings name sleep_sec cluster_api [].

(** [@trap(None) def wait_for_operation]. *)
Definition wait_for_operation (cluster_api : list reply) (name : string)
    (conditions : list OpStatus) (sleep_sec : Z) (message : string)
    (spinner : bool) : run reply (option (result (option dict))) :=
  trap_run None true
    (wait_for_operation_fn cluster_api name conditions sleep_sec message
                           spinner).

(** The defaults of the keyword parameters. *)
Definition default_conditions : list OpStatus := [DONE; ABORTING].
Definition default_sleep_sec : Z := 1.

(** The body of [gke_tpu_to_tpuspec]. *)
Definition gke_tpu_to_tpuspec_fn (tpu : string) : result (option TPUSpec) :=
  gd ← Re.groupdict (Re.tpu_re tpu);
  kind ← enum_getitem (upper gd.1);
  n ← int (PyStr gd.2);
  mret (Some (mkTPUSpec kind n)).

(** [@trap(None) def gke_tpu_to_tpuspec]. *)
Definition gke_tpu_to_tpuspec (tpu : string) : result (option TPUSpec) :=
  (trap None true gke_tpu_to_tpuspec_fn tpu).1.

Section Accelerators.

(** [caliban.cloud.types.GPU] and the constant [MAX_GB_PER_CPU] of
    [caliban.gke.constants] are imported by the module. *)
Context {GPU : Type} `{Countable GPU} `{!PyEnum GPU}.
Variable MAX_GB_PER_CPU : Z.

(** [validate_gpu_spec_against_limits(gpu_spec, gpu_limits, limit_type)]. *)
Definition validate_gpu_spec_against_limits (gpu_spec : GPUSpec GPU)
    (gpu_limits : gmap GPU Z) (limit_type : string)
  : bool * list log_record :=
  match gpu_limits !! gpu gpu_spec with
  | None =>
      (false, [LogUnsupportedType (enum_name (gpu gpu_spec)) limit_type])
  | Some maximum =>
      if bool_decide (count gpu_spec > maximum) then
        (false, [LogCountUnsupported (enum_name (gpu gpu_spec))
                                     (count gpu_spec) limit_type maximum])
      else (true, [])
  end.

(** The body of [gke_gpu_to_gpu]. *)
Definition gke_gpu_to_gpu_fn (gpu : string) : result (option GPU) :=
  gd ← Re.groupdict (Re.gpu_re gpu);
  g ← enum_getitem (upper gd);
  mret (Some g).

(** [@trap(None) def gke_gpu_to_gpu]. *)
Definition gke_gpu_to_gpu (gpu : string) : result (option GPU) :=
  (trap None true gke_gpu_to_gpu_fn gpu).1.

(** One turn of the loop of [resource_limits_from_quotas]: the limits
    list after the quota [q] has been handled. *)
Definition quota_turn (limits : list dict) (q : dict) : result (list dict) :=
  metric ← getitem q "metric";
  limit ← getitem q "limit";
  if decide (metric = PyStr "CPUS") then
    let limits :=
      limits ++ [ {[ "resourceType" := PyStr "cpu";
                     "maximum" := PyStr (str limit) ]} ] in
    n ← int limit;
    mret (limits ++ [ {[ "resourceType" := PyStr "memory";
                         "maximum" := PyStr (str (PyInt (n * MAX_GB_PER_CPU))) ]} ])
  else
    gpu_match ← Re.re_match Re.quota_gpu_re metric;
    match gpu_match with
    | None => mret limits
    | Some gpu_type =>
        mret (limits ++
              [ {[ "resourceType" := PyStr ("nvidia-tesla-" +:+ lower gpu_type);
                   "maximum" := PyStr (str limit) ]} ])
    end.

Fixpoint quota_loop (quotas : list dict) (limits : list dict)
  : result (list dict) :=
  match quotas with
  | [] => mret limits
  | q :: quotas => limits ← quota_turn limits q; quota_loop quotas limits
  end.

(** The body of [resource_limits_from_quotas]. *)
Definition resource_limits_from_quotas_fn (quotas : list dict)
  : result (option (list dict)) :=
  limits ← quota_loop quotas []; mret (Some limits).

(** [@trap(None) def resource_limits_from_quotas]. *)
Definition resource_limits_from_quotas (quotas : list dict)
  : result (option (list dict)) :=
  (trap None true resource_limits_from_quotas_fn quotas).1.

End Accelerators.

(** ** Vocabulary of the properties *)

(** The one-character string made of a newline. *)
Definition NL : string := String LF EmptyString.

(** A non-empty string whose characters all belong to a class. *)
Definition word (cls : ascii → bool) (s : string) : Prop :=
  s ≠ EmptyString ∧ all_chars cls s = true.

(** The first character of a string, if any, is outside a class. *)
Definition stops (cls : ascii → bool) (s : string) : Prop :=
  match s with
  | EmptyString => True
  | String c _ => cls c = false
  end.

(** The number written by a string of decimal digits. *)
Fixpoint decimal_from (acc : Z) (s : string) : Z :=
  match s with
  | EmptyString => acc
  | String c r => decimal_from (10 * acc + digit_val c) r
  end.

Definition decimal : string → Z := decimal_from 0.

(** [s] writes the integer [z] in decimal: digits, after a minus sign
    when [z] is negative. *)
Definition decimal_rendering (z : Z) (s : string) : Prop :=
  (0 ≤ z ∧ word is_digit s ∧ decimal s = z) ∨
  (z < 0 ∧ ∃ t, s = "-" +:+ t ∧ word is_digit t ∧ decimal t = - z).

(** The accepted TPU strings: [<version>-<count>] with version v2 or v3
    and a decimal count. *)
Definition tpu_string (s : string) (kind : TPU) (n : Z) : Prop :=
  ∃ digits, word is_digit digits ∧ n = decimal digits ∧
    ((s = "v2-" +:+ digits ∧ kind = V2) ∨ (s = "v3-" +:+ digits ∧ kind = V3)).

(** The accepted GPU strings: [nvidia-tesla-<model>], the model in lower
    case letters and digits. *)
Definition gpu_string (s model : string) : Prop :=
  word Re.lower_alnum model ∧ s = "nvidia-tesla-" +:+ model.

(** The GPU quota metrics: [NVIDIA_<MODEL>_GPUS], the model in upper case
    letters and digits. *)
Definition gpu_metric (s model : string) : Prop :=
  word Re.upper_alnum model ∧ s = "NVIDIA_" +:+ model +:+ "_GPUS".

(** A limit record. *)
Definition limit_record (resourceType maximum : string) : dict :=
  {[ "resourceType" := PyStr resourceType; "maximum" := PyStr maximum ]}.

(** The prompt of [user_verify]. *)
Definition prompt_text (msg : string) (default : bool) : string :=
  String LF " " +:+ msg +:+ " " +:+ (if default then "[Yn]" else "[yN]")
  +:+ ": ".

(** What a line typed at the prompt means, if anything. *)
Definition answer (default : bool) (line : string) : option bool :=
  if decide (line = "") then Some default
  else if decide (line = "y" ∨ line = "Y") then Some true
  else if decide (line = "n" ∨ line = "N") then Some false
  else None.

(** The output of a dialogue in which [n] lines were turned down. *)
Fixpoint dialogue (msg : string) (default : bool) (n : nat) : list event :=
  match n with
  | O => [Prompt (prompt_text msg default)]
  | S n =>
      Prompt (prompt_text msg default) :: Print "please enter y or n"
      :: dialogue msg default n
  end.

(** The events of a poll that needed [n] sleeps: [n + 1] queries, a sleep
    of the interval between two consecutive ones. *)
Fixpoint polling (name : string) (sleep_sec : Z) (n : nat) : list event :=
  match n with
  | O => [Query name]
  | S n => Query name :: Sleep sleep_sec :: polling name sleep_sec n
  end.

Definition is_query (e : event) : bool :=
  match e with Query _ => true | _ => false end.

(** The number of queries among the events. *)
Fixpoint queries (tr : list event) : nat :=
  match tr with
  | [] => 0
  | e :: tr => (if is_query e then 1 else 0) + queries tr
  end%nat.

(** The status of a response is one of the terminal conditions. *)
Definition terminal (conditions : list OpStatus) (rsp : dict) : Prop :=
  ∃ c, c ∈ conditions ∧ rsp !! "status" = Some (PyStr (enum_name c)).

(** A reply that carries a status which is none of the conditions. *)
Definition non_terminal (conditions : list OpStatus) (r : reply) : Prop :=
  ∃ rsp status, r = Responds rsp ∧ rsp !! "status" = Some status ∧
    ∀ c, c ∈ conditions → status ≠ PyStr (enum_name c).

(** A quota record the translator can digest: a string metric, a limit,
    and for the CPU quota a limit that [int()] accepts. *)
Definition well_formed_quota (q : dict) : Prop :=
  ∃ metric limit, q !! "metric" = Some (PyStr metric) ∧
    q !! "limit" = Some limit ∧
    (metric = "CPUS" → ∃ n, int limit = Return n).

(** Sample data. *)
Definition status_response (status : string) : dict :=
  {[ "name" := PyStr "operation-1"; "status" := PyStr status ]}.

Definition quota (metric : string) (limit : pyval) : dict :=
  {[ "metric" := PyStr metric; "limit" := limit; "usage" := PyInt 0 ]}.

(** The translation of one quota record as the specification words it:
    the CPU quota gives a cpu limit and a memory limit, a GPU quota gives
    the limit of its model, any other metric gives nothing. *)
Inductive translates (MAX_GB_PER_CPU : Z) (q : dict) : list dict → Prop :=
| translates_cpu limit n :
    q !! "metric" = Some (PyStr "CPUS") →
    q !! "limit" = Some limit →
    int limit = Return n →
    translates MAX_GB_PER_CPU q
      [limit_record "cpu" (str limit);
       limit_record "memory" (str (PyInt (n * MAX_GB_PER_CPU)))]
| translates_gpu metric model limit :
    q !! "metric" = Some (PyStr metric) →
    gpu_metric metric model →
    q !! "limit" = Some limit →
    translates MAX_GB_PER_CPU q
      [limit_record ("nvidia-tesla-" +:+ lower model) (str limit)]
| translates_other metric limit :
    q !! "metric" = Some (PyStr metric) →
    metric ≠ "CPUS" →
    (∀ model, ¬ gpu_metric metric model) →
    q !! "limit" = Some limit →
    translates MAX_GB_PER_CPU q [].

(** The metric of a quota record does not end with a newline. *)
Definition metric_without_newline (q : dict) : Prop :=
  ∀ metric, q !! "metric" = Some (PyStr metric) → ∀ m, metric ≠ m +:+ NL.

(** The maximum written for a limit: the string [str()] gives for it,
    which is its decimal rendering when the limit is an integer. *)
Definition limit_maximum (limit : pyval) (s : string) : Prop :=
  s = str limit ∧ ∀ z, limit = PyInt z → decimal_rendering z s.

(** The maximum written for the memory that goes with a CPU limit: the
    decimal rendering of the product of [int()] of the limit with the
    constant. *)
Definition memory_maximum (MAX_GB_PER_CPU : Z) (limit : pyval) (s : string)
  : Prop :=
  ∃ n, int limit = Return n ∧ s = str (PyInt (n * MAX_GB_PER_CPU)) ∧
       decimal_rendering (n * MAX_GB_PER_CPU) s.

(** The limit records that one quota record gives rise to, with their
    maxima: the cpu and memory records of the CPUS quota, one record or
    none for any other metric. *)
Inductive emits (MAX_GB_PER_CPU : Z) (q : dict) : list dict → Prop :=
| emits_cpu limit cpu memory :
    q !! "metric" = Some (PyStr "CPUS") →
    q !! "limit" = Some limit →
    limit_maximum limit cpu →
    memory_maximum MAX_GB_PER_CPU limit memory →
    emits MAX_GB_PER_CPU q
      [limit_record "cpu" cpu; limit_record "memory" memory]
| emits_gpu metric limit resourceType maximum :
    q !! "metric" = Some (PyStr metric) →
    metric ≠ "CPUS" →
    q !! "limit" = Some limit →
    limit_maximum limit maximum →
    emits MAX_GB_PER_CPU q [limit_record resourceType maximum]
| emits_nothing metric :
    q !! "metric" = Some (PyStr metric) →
    metric ≠ "CPUS" →
    emits MAX_GB_PER_CPU q [].

(** ** The remote queriers of [caliban/gke/utils.py] *)

(** A response of a list or get endpoint, typed by its schema: a
    dictionary whose list-valued fields hold records. *)
Abbreviation response := (gmap string (list dict)).

(** What one [....execute()] does: it returns a response or [None], or it
    raises. *)
Inductive execution : Type :=
| Executed (rsp : option response)
| Raised (e : exn).

Definition execute (x : execution) : result (option response) :=
  match x with
  | Executed rsp => Return rsp
  | Raised e => Raise e
  end.

(** [rsp[key]]: [None] is not subscriptable. *)
Definition subscript (rsp : option response) (key : string)
  : result (list dict) :=
  match rsp with
  | Some d => getitem d key
  | None => Raise TypeError
  end.

(** The endpoints of the TPU client, by the [parent] they are asked for. *)
Record tpu_client : Type := {
  tensorflowVersions_list : string → execution;
  tpu_acceleratorTypes_list : string → execution;
}.

(** The endpoints of the compute client, by project and zone or region. *)
Record compute_client : Type := {
  acceleratorTypes_list : string → string → execution;
  regions_get : string → string → execution;
}.

(** A list comprehension [[f(x) for x in l]]. *)
Fixpoint comprehension {A B} (f : A → result B) (l : list A)
  : result (list B) :=
  match l with
  | [] => mret []
  | x :: l => y ← f x; ys ← comprehension f l; mret (y :: ys)
  end.

(** The body of [get_tpu_drivers]; the message it logs on a [None]
    response is left out. *)
Definition get_tpu_drivers_fn (tpu_api : tpu_client)
    (project_id zone : string) : result (option (list pyval)) :=
  let location := "projects/" +:+ project_id +:+ "/locations/" +:+ zone in
  rsp ← execute (tensorflowVersions_list tpu_api location);
  match rsp with
  | None => mret None
  | Some rsp =>
      versions ← getitem rsp "tensorflowVersions";
      drivers ← comprehension (λ d, getitem d "version") versions;
      mret (Some drivers)
  end.

(** [@trap(None) def get_tpu_drivers]. *)
Definition get_tpu_drivers (tpu_api : tpu_client) (project_id zone : string)
  : result (option (list pyval)) :=
  (trap None true (λ _ : unit, get_tpu_drivers_fn tpu_api project_id zone)
        tt).1.

(** [gke_tpu_to_tpuspec(v)] for a value taken from a response: on a
    subject that is not a string [tpu_re.match] raises [TypeError], inside
    the trapped function. *)
Definition gke_tpu_to_tpuspec_call (v : pyval) : result (option TPUSpec) :=
  match v with
  | PyStr s => gke_tpu_to_tpuspec s
  | _ => (trap None true (λ _ : unit, Raise TypeError) tt).1
  end.

(** The loop of [get_zone_tpu_types]. *)
Fixpoint tpu_types_loop (types : list dict) (tpus : list TPUSpec)
  : result (list TPUSpec) :=
  match types with
  | [] => mret tpus
  | t :: types =>
      type ← getitem t "type";
      spec ← gke_tpu_to_tpuspec_call type;
      match spec with
      | None => tpu_types_loop types tpus
      | Some spec => tpu_types_loop types (tpus ++ [spec])
      end
  end.

(** The body of [get_zone_tpu_types]. *)
Definition get_zone_tpu_types_fn (tpu_api : tpu_client)
    (project_id zone : string) : result (option (list TPUSpec)) :=
  let location := "projects/" +:+ project_id +:+ "/locations/" +:+ zone in
  rsp ← execute (tpu_acceleratorTypes_list tpu_api location);
  types ← subscript rsp "acceleratorTypes";
  tpus ← tpu_types_loop types [];
  mret (Some tpus).

(** [@trap(None) def get_zone_tpu_types]. *)
Definition get_zone_tpu_types (tpu_api : tpu_client)
    (project_id zone : string) : result (option (list TPUSpec)) :=
  (trap None true (λ _ : unit, get_zone_tpu_types_fn tpu_api project_id zone)
        tt).1.

(** The body of [get_region_quotas]: [.get('quotas', [])] on the response,
    an attribute lookup that fails on [None]. *)
Definition get_region_quotas_fn (compute_api : compute_client)
    (project_id region : string) : result (option (list dict)) :=
  rsp ← execute (regions_get compute_api project_id region);
  match rsp with
  | None => Raise AttributeError
  | Some rsp => mret (Some (default [] (rsp !! "quotas")))
  end.

(** [@trap(None) def get_region_quotas]. *)
Definition get_region_quotas (project_id region : string)
    (compute_api : compute_client) : result (option (list dict)) :=
  (trap None true
        (λ _ : unit, get_region_quotas_fn compute_api project_id region)
        tt).1.

Section Queriers.

Context {GPU : Type} `{Countable GPU} `{!PyEnum GPU}.
Variable MAX_GB_PER_CPU : Z.

(** [gke_gpu_to_gpu(v)] for a value taken from a response. *)
Definition gke_gpu_to_gpu_call (v : pyval) : result (option GPU) :=
  match v with
  | PyStr s => gke_gpu_to_gpu s
  | _ => (trap None true (λ _ : unit, Raise TypeError) tt).1
  end.

(** The loop of [get_zone_gpu_types]. *)
Fixpoint gpu_types_loop (items : list dict) (gpus : list (GPUSpec GPU))
  : result (list (GPUSpec GPU)) :=
  match items with
  | [] => mret gpus
  | x :: items =>
      name ← getitem x "name";
      gpu ← gke_gpu_to_gpu_call name;
      match gpu with
      | None => gpu_types_loop items gpus
      | Some gpu =>
          cards ← getitem x "maximumCardsPerInstance";
          n ← int cards;
          gpu_types_loop items (gpus ++ [mkGPUSpec gpu n])
      end
  end.

(** The body of [get_zone_gpu_types]. *)
Definition get_zone_gpu_types_fn (project_id zone : string)
    (compute_api : compute_client) : result (option (list (GPUSpec GPU))) :=
  rsp ← execute (acceleratorTypes_list compute_api project_id zone);
  items ← subscript rsp "items";
  gpus ← gpu_types_loop items [];
  mret (Some gpus).

(** [@trap(None) def get_zone_gpu_types]. *)
Definition get_zone_gpu_types (project_id zone : string)
    (compute_api : compute_client) : result (option (list (GPUSpec GPU))) :=
  (trap None true
        (λ _ : unit, get_zone_gpu_types_fn project_id zone compute_api)
        tt).1.

(** The body of [generate_resource_limits]. *)
Definition generate_resource_limits_fn (project_id region : string)
    (compute_api : compute_client) : result (option (list dict)) :=
  quotas ← get_region_quotas project_id region compute_api;
  match quotas with
  | None => mret None
  | Some quotas => resource_limits_from_quotas MAX_GB_PER_CPU quotas
  end.

(** [@trap(None) def generate_resource_limits]. *)
Definition generate_resource_limits (project_id region : string)
    (compute_api : compute_client) : result (option (list dict)) :=
  (trap None true
        (λ _ : unit, generate_resource_limits_fn project_id region compute_api)
        tt).1.

(** What one item of an accelerator listing contributes: nothing when its
    name is not recognised, whatever else it holds; the GPU and its
    maximum count when it is. *)
Inductive gpu_item (x : dict) : option (GPUSpec GPU) → Prop :=
| gpu_item_skipped name :
    x !! "name" = Some name →
    gke_gpu_to_gpu_call name = Return None →
    gpu_item x None
| gpu_item_kept name g cards n :
    x !! "name" = Some name →
    gke_gpu_to_gpu_call name = Return (Some g) →
    x !! "maximumCardsPerInstance" = Some cards →
    int cards = Return n →
    gpu_item x (Some (mkGPUSpec g n)).

End Queriers.

(** What one entry of a TPU listing contributes. *)
Definition tpu_entry (t : dict) : option TPUSpec :=
  match t !! "type" with
  | Some (PyStr s) =>
      match gke_tpu_to_tpuspec s with Return o => o | Raise _ => None end
  | _ => None
  end.

(** The limit records have the two keys [resourceType] and [maximum],
    both strings, and the resource type is cpu, memory or a GPU
    accelerator string. *)
Definition limit_shaped (l : dict) : Prop :=
  ∃ resourceType maximum, l = limit_record resourceType maximum ∧
    (resourceType = "cpu" ∨ resourceType = "memory" ∨
     ∃ model, gpu_string resourceType model).

(** The API gave no response: [execute()] returned [None] or raised an
    exception derived from [Exception]. *)
Definition unavailable (x : execution) : Prop :=
  x = Executed None ∨ ∃ e, x = Raised e ∧ is_Exception e = true.

(** Sample clients. *)
Definition sample_tpu_client : tpu_client := {|
  tensorflowVersions_list _ := Raised HttpError;
  tpu_acceleratorTypes_list _ :=
    Executed (Some {[ "acceleratorTypes" :=
                        [ {[ "type" := PyStr "v2-8" ]};
                          {[ "type" := PyStr "v4-16" ]};
                          {[ "type" := PyStr "v3-32" ]} ] ]});
|}.

Definition sample_items : list dict :=
  [ {[ "name" := PyStr "nvidia-tesla-v100";
       "maximumCardsPerInstance" := PyInt 8 ]};
    {[ "name" := PyStr "nvidia-tesla-p100-vws" ]};
    {[ "name" := PyStr "nvidia-tesla-k80";
       "maximumCardsPerInstance" := PyStr "4" ]} ].

Definition sample_compute_client : compute_client := {|
  acceleratorTypes_list _ _ := Executed (Some {[ "items" := sample_items ]});
  regions_get _ _ :=
    Executed (Some {[ "quotas" := [quota "CPUS" (PyInt 4);
                                   quota "DISKS" (PyInt 10)] ]});
|}.

(** The last character of a string. *)
Fixpoint last_char (s : string) : option ascii :=
  match s with
  | EmptyString => None
  | String c EmptyString => Some c
  | String _ r => last_char r
  end.

(** * Verification *)

(** ** Characters and strings *)

Lemma string_app_cons (c : ascii) (s t : string) :
  String c s +:+ t = String c (s +:+ t).
Proof. reflexivity. Qed.

Lemma string_app_empty_l (s : string) : "" +:+ s = s.
Proof. reflexivity. Qed.

Lemma string_app_empty_r (s : string) : s +:+ "" = s.
Proof. induction s as [|c s IH]; [done|]. by rewrite string_app_cons, IH. Qed.

Lemma string_app_assoc (s t u : string) : (s +:+ t) +:+ u = s +:+ t +:+ u.
Proof. induction s as [|c s IH]; [done|]. by rewrite !string_app_cons, IH. Qed.

Lemma all_chars_app (f : ascii → bool) (s t : string) :
  all_chars f (s +:+ t) = all_chars f s && all_chars f t.
Proof.
  induction s as [|c s IH]; [done|].
  rewrite string_app_cons. simpl. by rewrite IH, andb_assoc.
Qed.

(** Splitting a character into its bits settles any question about one
    character by computation. *)
Ltac by_bits c := destruct c as [[] [] [] [] [] [] [] []]; try done.

Lemma digit_not_space (c : ascii) : is_digit c = true → is_space c = false.
Proof. by_bits c. Qed.

Lemma digit_not_sign (c : ascii) :
  is_digit c = true → c ≠ "-"%char ∧ c ≠ "+"%char ∧ Ascii.eqb c "_" = false.
Proof. by_bits c. Qed.

Lemma digit_val_range (c : ascii) : is_digit c = true → 0 ≤ digit_val c ≤ 9.
Proof. by_bits c; vm_compute; split; discriminate. Qed.

Lemma LF_not_alnum :
  is_digit LF = false ∧ Re.lower_alnum LF = false ∧ Re.upper_alnum LF = false.
Proof. done. Qed.

Lemma lower_char_upper_alnum (c : ascii) :
  Re.upper_alnum c = true → Re.lower_alnum (lower_char c) = true.
Proof. by_bits c. Qed.

Lemma upper_char_lower_alnum (c : ascii) :
  Re.lower_alnum c = true → Re.upper_alnum (upper_char c) = true.
Proof. by_bits c. Qed.

Lemma lower_char_y (c : ascii) :
  lower_char c = "y"%char ↔ c = "y"%char ∨ c = "Y"%char.
Proof. split; [by_bits c; auto | by intros [-> | ->]]. Qed.

Lemma lower_char_n (c : ascii) :
  lower_char c = "n"%char ↔ c = "n"%char ∨ c = "N"%char.
Proof. split; [by_bits c; auto | by intros [-> | ->]]. Qed.

Lemma lower_y (s : string) : lower s = "y" ↔ s = "y" ∨ s = "Y".
Proof.
  split.
  - destruct s as [|c [|c' s]]; try done. intros [= Hc].
    apply lower_char_y in Hc as [-> | ->]; auto.
  - by intros [-> | ->].
Qed.

Lemma lower_n (s : string) : lower s = "n" ↔ s = "n" ∨ s = "N".
Proof.
  split.
  - destruct s as [|c [|c' s]]; try done. intros [= Hc].
    apply lower_char_n in Hc as [-> | ->]; auto.
  - by intros [-> | ->].
Qed.

Lemma lower_length_0 (s : string) :
  String.length (lower s) = 0%nat ↔ s = "".
Proof. by destruct s. Qed.

(** ** The matchers *)

Lemma literal_spec (p s r : string) : Re.literal p s = Some r ↔ s = p +:+ r.
Proof.
  revert s. induction p as [|a p IH]; intros s; simpl.
  - rewrite string_app_empty_l. split; congruence.
  - rewrite string_app_cons. destruct s as [|b s]; [done|].
    destruct (Ascii.eqb_spec a b) as [->|Hab]; [|split; congruence].
    rewrite IH. split; congruence.
Qed.

Lemma literal_app (p r : string) : Re.literal p (p +:+ r) = Some r.
Proof. by apply literal_spec. Qed.

#[local] Arguments Re.literal : simpl never.

Lemma span_sound (cls : ascii → bool) (s m r : string) :
  Re.span cls s = (m, r) →
  s = m +:+ r ∧ all_chars cls m = true ∧ stops cls r.
Proof.
  revert m r. induction s as [|c s IH]; intros m r; simpl.
  - by intros [= <- <-].
  - destruct (cls c) eqn:Hc.
    + destruct (Re.span cls s) as [m' r'] eqn:Hs. intros [= <- <-].
      destruct (IH _ _ eq_refl) as (-> & Hm & Hr).
      by rewrite string_app_cons; simpl; rewrite Hc.
    + intros [= <- <-]. by rewrite string_app_empty_l.
Qed.

Lemma span_complete (cls : ascii → bool) (m r : string) :
  all_chars cls m = true → stops cls r → Re.span cls (m +:+ r) = (m, r).
Proof.
  intros Hm Hr. induction m as [|c m IH].
  - rewrite string_app_empty_l. destruct r as [|c r]; [done|]. simpl in *.
    by rewrite Hr.
  - simpl in Hm. apply andb_true_iff in Hm as [Hc Hm].
    rewrite string_app_cons. simpl. by rewrite Hc, IH.
Qed.

Lemma plus_spec (cls : ascii → bool) (s m r : string) :
  Re.plus cls s = Some (m, r) ↔ word cls m ∧ s = m +:+ r ∧ stops cls r.
Proof.
  unfold Re.plus, word. split.
  - destruct (Re.span cls s) as [m' r'] eqn:Hs.
    apply span_sound in Hs as (-> & Hm & Hr).
    destruct m' as [|c m']; [done|]. by intros [= <- <-].
  - intros ((Hne & Hm) & -> & Hr). rewrite span_complete by done.
    by destruct m.
Qed.

Lemma at_dollar_spec (r : string) :
  Re.at_dollar r = true ↔ r = "" ∨ r = NL.
Proof.
  unfold NL. destruct r as [|c [|c' r]]; simpl.
  - split; auto.
  - destruct (Ascii.eqb_spec c LF) as [->|Hc]; [split; auto|].
    split; [done|]. intros [|]; congruence.
  - split; [done|]. intros [|]; congruence.
Qed.

Lemma stops_end (cls : ascii → bool) (r : string) :
  cls LF = false → r = "" ∨ r = NL → stops cls r.
Proof. by intros ? [-> | ->]. Qed.

(** What each pattern of the source accepts: the strings of its form and,
    because of [$], the same strings followed by one newline. *)
Lemma gpu_re_spec (s model : string) :
  Re.gpu_re s = Some model ↔
  word Re.lower_alnum model ∧
  (s = "nvidia-tesla-" +:+ model ∨ s = "nvidia-tesla-" +:+ model +:+ NL).
Proof.
  unfold Re.gpu_re. split.
  - destruct (Re.literal _ s) as [r|] eqn:Hlit; [|done]. simpl.
    apply literal_spec in Hlit as ->.
    destruct (Re.plus _ r) as [[m r']|] eqn:Hplus; [|done]. simpl.
    apply plus_spec in Hplus as (Hw & -> & _).
    destruct (Re.at_dollar r') eqn:Hd; [|done]. intros [= ->].
    apply at_dollar_spec in Hd as [-> | ->]; rewrite ?string_app_empty_r; auto.
  - intros [Hw Hs].
    assert (∃ r, (r = "" ∨ r = NL) ∧ s = "nvidia-tesla-" +:+ model +:+ r)
      as (r & Hr & ->).
    { destruct Hs as [-> | ->]; [exists ""|exists NL];
        rewrite ?string_app_empty_r; auto. }
    rewrite literal_app. simpl.
    assert (Re.plus Re.lower_alnum (model +:+ r) = Some (model, r)) as ->.
    { apply plus_spec. split_and!; [done..|]. by apply stops_end. }
    simpl. by apply at_dollar_spec in Hr as ->.
Qed.

Lemma quota_gpu_re_spec (s model : string) :
  Re.quota_gpu_re s = Some model ↔
  word Re.upper_alnum model ∧
  (s = "NVIDIA_" +:+ model +:+ "_GPUS"
   ∨ s = "NVIDIA_" +:+ model +:+ "_GPUS" +:+ NL).
Proof.
  unfold Re.quota_gpu_re. split.
  - destruct (Re.literal _ s) as [r|] eqn:Hlit; [|done]. simpl.
    apply literal_spec in Hlit as ->.
    destruct (Re.plus _ r) as [[m r']|] eqn:Hplus; [|done]. simpl.
    apply plus_spec in Hplus as (Hw & -> & _).
    destruct (Re.literal _ r') as [r|] eqn:Hlit; [|done]. simpl.
    apply literal_spec in Hlit as ->.
    destruct (Re.at_dollar r) eqn:Hd; [|done]. intros [= ->].
    apply at_dollar_spec in Hd as [-> | ->]; rewrite ?string_app_empty_r; auto.
  - intros [Hw Hs].
    assert (∃ r, (r = "" ∨ r = NL)
                 ∧ s = "NVIDIA_" +:+ model +:+ "_GPUS" +:+ r)
      as (r & Hr & ->).
    { destruct Hs as [-> | ->]; [exists ""|exists NL];
        rewrite ?string_app_empty_r; auto. }
    rewrite literal_app. simpl.
    assert (Re.plus Re.upper_alnum (model +:+ "_GPUS" +:+ r)
            = Some (model, "_GPUS" +:+ r)) as ->.
    { apply plus_spec. by split_and!. }
    simpl. rewrite ?literal_app, ?string_app_empty_l. simpl.
    by apply at_dollar_spec in Hr as ->.
Qed.

Lemma tpu_re_spec (s version digits : string) :
  Re.tpu_re s = Some (version, digits) ↔
  (version = "v2" ∨ version = "v3") ∧ word is_digit digits ∧
  (s = version +:+ "-" +:+ digits ∨ s = version +:+ "-" +:+ digits +:+ NL).
Proof.
  unfold Re.tpu_re. split.
  - intros Hm.
    assert (∃ v r, (v = "v2" ∨ v = "v3") ∧ s = v +:+ r ∧
              (r0 ← Re.literal "-" r;
               '(count, r1) ← Re.plus is_digit r0;
               if Re.at_dollar r1 then Some (v, count) else None)
              = Some (version, digits)) as (v & r & Hv & -> & Hrest).
    { destruct (Re.literal "v2" s) as [r|] eqn:H2.
      - apply literal_spec in H2. exists "v2", r. auto.
      - destruct (Re.literal "v3" s) as [r|] eqn:H3; [|done].
        apply literal_spec in H3. exists "v3", r. auto. }
    clear Hm.
    destruct (Re.literal "-" r) as [r0|] eqn:Hlit; [|done]. simpl in Hrest.
    apply literal_spec in Hlit as ->.
    destruct (Re.plus _ r0) as [[m r1]|] eqn:Hplus; [|done]. simpl in Hrest.
    apply plus_spec in Hplus as (Hw & -> & _).
    destruct (Re.at_dollar r1) eqn:Hd; [|done].
    injection Hrest as <- <-.
    apply at_dollar_spec in Hd as [-> | ->]; rewrite ?string_app_empty_r; auto.
  - intros (Hv & Hw & Hs).
    assert (∃ r, (r = "" ∨ r = NL) ∧ s = version +:+ "-" +:+ digits +:+ r)
      as (r & Hr & ->).
    { destruct Hs as [-> | ->]; [exists ""|exists NL];
        rewrite ?string_app_empty_r; auto. }
    assert (Re.plus is_digit (digits +:+ r) = Some (digits, r)) as Hplus.
    { apply plus_spec. split_and!; [done..|]. by apply stops_end. }
    apply at_dollar_spec in Hr.
    destruct Hv as [-> | ->]; simpl; rewrite ?string_app_cons, ?string_app_empty_l;
      simpl; rewrite Hplus; simpl; by rewrite Hr.
Qed.

(** ** [int()] on a string of digits *)

Lemma int_digits_digits (b : bool) (acc : Z) (d : string) :
  all_chars is_digit d = true → b = true ∨ d ≠ "" →
  int_digits b acc d = Some (decimal_from acc d, "").
Proof.
  revert b acc. induction d as [|c d IH]; intros b acc Hd Hb; simpl.
  - by destruct Hb as [-> | ?].
  - simpl in Hd. apply andb_true_iff in Hd as [Hc Hd].
    rewrite Hc. apply IH; auto.
Qed.

Lemma lstrip_digit (c : ascii) (r : string) :
  is_digit c = true → lstrip (String c r) = String c r.
Proof. intros Hc. simpl. by rewrite (digit_not_space c Hc). Qed.

Lemma int_of_string_digits (d : string) :
  word is_digit d → int_of_string d = Return (decimal d).
Proof.
  intros [Hne Hd]. destruct d as [|c r]; [done|].
  assert (is_digit c = true) as Hc.
  { simpl in Hd. by apply andb_true_iff in Hd as [? _]. }
  unfold int_of_string. rewrite lstrip_digit by done.
  assert ((match String c r with
           | String "-" r0 => (-1, r0)
           | String "+" r0 => (1, r0)
           | _ => (1, String c r)
           end) = (1, String c r)) as ->.
  { clear -Hc. by_bits c. }
  rewrite (int_digits_digits false 0 (String c r)) by auto.
  simpl. f_equal. unfold decimal. simpl. lia.
Qed.

(** ** [str()] of an integer is its decimal rendering *)

Lemma decimal_from_app (acc : Z) (t u : string) :
  decimal_from acc (t +:+ u) = decimal_from (decimal_from acc t) u.
Proof.
  revert acc. induction t as [|c t IH]; intros acc; [done|].
  rewrite string_app_cons. simpl. by rewrite IH.
Qed.

Lemma pretty_N_char_digit (d : N) :
  (d < 10)%N →
  is_digit (pretty_N_char d) = true ∧ digit_val (pretty_N_char d) = Z.of_N d.
Proof.
  intros Hd.
  assert (d = 0 ∨ d = 1 ∨ d = 2 ∨ d = 3 ∨ d = 4 ∨ d = 5 ∨ d = 6 ∨ d = 7
          ∨ d = 8 ∨ d = 9)%N as Hcases by lia.
  repeat destruct Hcases as [-> | Hcases]; try subst d; done.
Qed.

(** The digits that [pretty_N_go] puts in front of its accumulator. *)
Lemma pretty_N_go_digits (x : N) (s : string) :
  ∃ t, pretty_N_go x s = t +:+ s ∧ all_chars is_digit t = true ∧
       ((0 < x)%N → t ≠ "") ∧
       ∃ k : nat, ∀ acc, decimal_from acc t = acc * 10 ^ Z.of_nat k + Z.of_N x.
Proof.
  revert s. induction (N.lt_wf_0 x) as [x _ IH]; intros s.
  destruct (decide (x = 0%N)) as [->|Hx].
  { exists "". rewrite pretty_N_go_0. split_and!; [done..|lia|].
    exists 0%nat. intros acc. simpl. lia. }
  rewrite pretty_N_go_step by lia.
  destruct (IH (x `div` 10)%N) with (s := String (pretty_N_char (x `mod` 10)) s)
    as (t & -> & Ht & _ & k & Hval).
  { apply N.div_lt; lia. }
  destruct (pretty_N_char_digit (x `mod` 10)%N) as [Hc Hv].
  { apply N.mod_lt. lia. }
  exists (t +:+ String (pretty_N_char (x `mod` 10)) "").
  split_and!.
  - by rewrite string_app_assoc.
  - rewrite all_chars_app, Ht. simpl. by rewrite Hc.
  - intros _. by destruct t.
  - exists (S k). intros acc. rewrite decimal_from_app, Hval. simpl.
    rewrite Hv, Nat2Z.inj_succ, Z.pow_succ_r by lia.
    rewrite N2Z.inj_mod, N2Z.inj_div.
    pose proof (Z.div_mod (Z.of_N x) 10). change (Z.of_N 10) with 10. lia.
Qed.

Lemma pretty_positive_digits (p : positive) :
  word is_digit (pretty p) ∧ decimal (pretty p) = Z.pos p.
Proof.
  unfold pretty, pretty_positive, pretty, pretty_N.
  rewrite decide_False by done.
  destruct (pretty_N_go_digits (N.pos p) "") as (t & -> & Ht & Hne & k & Hval).
  rewrite string_app_empty_r. split; [split; [apply Hne; lia|done]|].
  unfold decimal. rewrite Hval. simpl. lia.
Qed.

Lemma str_decimal (z : Z) : decimal_rendering z (str (PyInt z)).
Proof.
  destruct z as [|p|p]; simpl.
  - left. by split_and!.
  - left. destruct (pretty_positive_digits p) as [Hw Hv]. by split_and!.
  - right. split; [lia|]. exists (pretty p).
    destruct (pretty_positive_digits p) as [Hw Hv]. by split_and!.
Qed.

(** [int(str(z)) == z]. *)
Lemma int_str (z : Z) : int (PyStr (str (PyInt z))) = Return z.
Proof.
  destruct z as [|p|p]; simpl; [done| |].
  - destruct (pretty_positive_digits p) as [Hw Hv].
    change (pretty (Z.pos p)) with (pretty p).
    by rewrite int_of_string_digits, Hv.
  - destruct (pretty_positive_digits p) as [[Hne Hd] Hv].
    change (pretty (Z.neg p)) with ("-" +:+ pretty p).
    unfold int_of_string. rewrite string_app_cons, string_app_empty_l.
    simpl. rewrite int_digits_digits by auto. simpl.
    fold (decimal (pretty p)). by rewrite Hv.
Qed.

(** ** The error trap *)

Lemma trap_silent_Return {A B} (error_value : B) (fn : A → result B)
    (args : A) (v : B) :
  fn args = Return v → (trap error_value true fn args).1 = Return v.
Proof. unfold trap. by intros ->. Qed.

Lemma trap_silent_Raise {A B} (error_value : B) (fn : A → result B)
    (args : A) (e : exn) :
  fn args = Raise e → is_Exception e = true →
  (trap error_value true fn args).1 = Return error_value.
Proof. unfold trap. by intros -> ->. Qed.

(** C3, as amended.  For every function wrapped by the trap decorator with
    a sentinel value, and every input: if the wrapped function raises an
    exception derived from [Exception], the wrapper returns the sentinel
    and nothing is propagated; an exception derived from [BaseException]
    only, such as [KeyboardInterrupt] or [SystemExit], passes through the
    wrapper; if the wrapped function returns normally, the wrapper returns
    that value unchanged. *)
Theorem trap_spec {A B} (error_value : B) (silent : bool)
    (fn : A → result B) (args : A) :
  (∀ e, fn args = Raise e → is_Exception e = true →
        (trap error_value silent fn args).1 = Return error_value) ∧
  (∀ e, fn args = Raise e → is_Exception e = false →
        (trap error_value silent fn args).1 = Raise e) ∧
  (∀ v, fn args = Return v →
        (trap error_value silent fn args).1 = Return v).
Proof.
  unfold trap. split_and!.
  - by intros e -> ->.
  - by intros e -> ->.
  - by intros v ->.
Qed.

Lemma trap_spec_witness :
  (trap None true gke_tpu_to_tpuspec_fn "v4-8").1 = Return None ∧
  (trap None true gke_tpu_to_tpuspec_fn "v2-8").1
  = Return (Some (mkTPUSpec V2 8)).
Proof.
  split.
  - apply (proj1 (trap_spec None true gke_tpu_to_tpuspec_fn "v4-8")
             AttributeError); reflexivity.
  - apply (proj2 (proj2 (trap_spec None true gke_tpu_to_tpuspec_fn "v2-8")));
      reflexivity.
Defined.

(** C3, as stated, fails: a wrapped function that raises
    [KeyboardInterrupt] is not answered with the sentinel, the exception
    leaves the wrapper. *)
Lemma trap_lets_interrupt_through :
  let fn := λ _ : unit, @Raise (option Z) KeyboardInterrupt in
  fn tt = Raise KeyboardInterrupt ∧
  (trap None true fn tt).1 = Raise KeyboardInterrupt ∧
  (trap None true fn tt).1 ≠ Return None.
Proof. by split_and!. Qed.

(** When not silent, the trapped exception is logged. *)
Lemma trap_logs {A B} (error_value : B) (fn : A → result B) (args : A)
    (e : exn) :
  fn args = Raise e → is_Exception e = true →
  (trap error_value false fn args).2 = [LogException e].
Proof. unfold trap. by intros -> ->. Qed.

(** ** Enumerations *)

Lemma enum_getitem_name {E} `{PyEnum E} (key : string) (m : E) :
  enum_getitem key = Return m → enum_name m = key ∧ In m enum_members.
Proof.
  unfold enum_getitem.
  destruct (find _ enum_members) as [m'|] eqn:Hfind; [|done].
  intros [= ->]. apply find_some in Hfind as [Hin Heq].
  by apply String.eqb_eq in Heq.
Qed.

Lemma enum_getitem_cases {E} `{PyEnum E} (key : string) :
  (∃ m : E, enum_getitem key = Return m) ∨ enum_getitem key = Raise KeyError.
Proof. unfold enum_getitem. destruct (find _ _); eauto. Qed.

(** ** TPU strings *)

Lemma gke_tpu_to_tpuspec_match (s version digits : string) :
  Re.tpu_re s = Some (version, digits) →
  gke_tpu_to_tpuspec s
  = Return (Some (mkTPUSpec (if decide (version = "v2") then V2 else V3)
                            (decimal digits))).
Proof.
  intros Hm. pose proof Hm as (Hv & Hw & _)%tpu_re_spec.
  apply trap_silent_Return. unfold gke_tpu_to_tpuspec_fn. rewrite Hm.
  cbn [Re.groupdict mbind result_bind bind fst snd int].
  rewrite (int_of_string_digits _ Hw). by destruct Hv as [-> | ->].
Qed.

Lemma gke_tpu_to_tpuspec_no_match (s : string) :
  Re.tpu_re s = None → gke_tpu_to_tpuspec s = Return None.
Proof.
  intros Hm. apply trap_silent_Raise with AttributeError; [|done].
  unfold gke_tpu_to_tpuspec_fn. by rewrite Hm.
Qed.

(** The strings of the accepted form are converted as C4 says. *)
Lemma gke_tpu_to_tpuspec_accepts (s : string) (kind : TPU) (n : Z) :
  tpu_string s kind n →
  gke_tpu_to_tpuspec s = Return (Some (mkTPUSpec kind n)).
Proof.
  intros (digits & Hw & -> & [[-> ->] | [-> ->]]).
  - by rewrite (gke_tpu_to_tpuspec_match _ "v2" digits)
      by (apply tpu_re_spec; auto).
  - by rewrite (gke_tpu_to_tpuspec_match _ "v3" digits)
      by (apply tpu_re_spec; auto).
Qed.

(** One newline after an accepted string goes unnoticed. *)
Lemma gke_tpu_to_tpuspec_newline (s : string) (kind : TPU) (n : Z) :
  tpu_string s kind n →
  gke_tpu_to_tpuspec (s +:+ NL) = Return (Some (mkTPUSpec kind n)).
Proof.
  intros (digits & Hw & -> & [[-> ->] | [-> ->]]).
  - rewrite (gke_tpu_to_tpuspec_match _ "v2" digits); [done|].
    apply tpu_re_spec. split_and!; auto.
  - rewrite (gke_tpu_to_tpuspec_match _ "v3" digits); [done|].
    apply tpu_re_spec. split_and!; auto.
Qed.

(** Every other string yields [None]. *)
Lemma gke_tpu_to_tpuspec_rejects (s : string) :
  (∀ kind n, ¬ tpu_string s kind n) →
  (∀ s' kind n, s = s' +:+ NL → ¬ tpu_string s' kind n) →
  gke_tpu_to_tpuspec s = Return None.
Proof.
  intros Hform Hnl. apply gke_tpu_to_tpuspec_no_match.
  destruct (Re.tpu_re s) as [[version digits]|] eqn:Hm; [|done].
  exfalso. apply tpu_re_spec in Hm as (Hv & Hw & Hs).
  assert (∃ kind, tpu_string (version +:+ "-" +:+ digits) kind
                             (decimal digits)) as [kind Hk].
  { destruct Hv as [-> | ->]; [exists V2|exists V3];
      exists digits; split_and!; auto. }
  destruct Hs as [-> | ->].
  - by eapply Hform.
  - eapply Hnl; [|done]. by rewrite <-!string_app_assoc.
Qed.

(** C4 on the code: the string made of [v2-8] and a newline is not of the
    form [<version>-<count>], and [gke_tpu_to_tpuspec] returns the TPUSpec
    (V2, 8) for it instead of [None]. *)
Theorem gke_tpu_to_tpuspec_trailing_newline :
  (∀ kind n, ¬ tpu_string ("v2-8" +:+ NL) kind n) ∧
  gke_tpu_to_tpuspec ("v2-8" +:+ NL) = Return (Some (mkTPUSpec V2 8)).
Proof.
  split; [|done].
  intros kind n (digits & [_ Hd] & _ & [[Hs _] | [Hs _]]); [|done].
  assert (digits = "8" +:+ NL) as -> by by injection Hs.
  done.
Qed.

(** ** GPU strings *)

Section GpuStrings.

Context {GPU : Type} `{Countable GPU} `{!PyEnum GPU}.

Lemma gke_gpu_to_gpu_match (s model : string) :
  Re.gpu_re s = Some model →
  gke_gpu_to_gpu s
  = match enum_getitem (E:=GPU) (upper model) with
    | Return g => Return (Some g)
    | Raise _ => Return None
    end.
Proof.
  intros Hm. unfold gke_gpu_to_gpu, trap, gke_gpu_to_gpu_fn. rewrite Hm.
  cbn [Re.groupdict mbind result_bind bind].
  by destruct (enum_getitem_cases (E:=GPU) (upper model)) as [[g ->] | ->].
Qed.

Lemma gke_gpu_to_gpu_no_match (s : string) :
  Re.gpu_re s = None → gke_gpu_to_gpu (GPU:=GPU) s = Return None.
Proof.
  intros Hm. apply trap_silent_Raise with AttributeError; [|done].
  unfold gke_gpu_to_gpu_fn. by rewrite Hm.
Qed.

(** A string of the form [nvidia-tesla-<model>] whose model, in upper
    case, is the name of a member is converted to that member. *)
Lemma gke_gpu_to_gpu_known (s model : string) (g : GPU) :
  gpu_string s model → enum_getitem (upper model) = Return g →
  gke_gpu_to_gpu s = Return (Some g) ∧ enum_name g = upper model.
Proof.
  intros [Hw ->] Hg. split; [|by apply enum_getitem_name in Hg as [? _]].
  rewrite (gke_gpu_to_gpu_match _ model) by (apply gpu_re_spec; auto).
  by rewrite Hg.
Qed.

(** A model that names no member yields [None]. *)
Lemma gke_gpu_to_gpu_unknown (s model : string) :
  gpu_string s model → enum_getitem (E:=GPU) (upper model) = Raise KeyError →
  gke_gpu_to_gpu (GPU:=GPU) s = Return None.
Proof.
  intros [Hw ->] Hg.
  rewrite (gke_gpu_to_gpu_match _ model) by (apply gpu_re_spec; auto).
  by rewrite Hg.
Qed.

(** One newline after a string of the form goes unnoticed. *)
Lemma gke_gpu_to_gpu_newline (s model : string) :
  gpu_string s model →
  gke_gpu_to_gpu (GPU:=GPU) (s +:+ NL) = gke_gpu_to_gpu s.
Proof.
  intros [Hw ->].
  rewrite !(gke_gpu_to_gpu_match _ model); [done|apply gpu_re_spec..]; auto.
Qed.

(** Every other string yields [None]. *)
Lemma gke_gpu_to_gpu_malformed (s : string) :
  (∀ model, ¬ gpu_string s model) →
  (∀ s' model, s = s' +:+ NL → ¬ gpu_string s' model) →
  gke_gpu_to_gpu (GPU:=GPU) s = Return None.
Proof.
  intros Hform Hnl. apply gke_gpu_to_gpu_no_match.
  destruct (Re.gpu_re s) as [model|] eqn:Hm; [|done].
  exfalso. apply gpu_re_spec in Hm as [Hw [-> | ->]].
  - by eapply Hform.
  - eapply (Hnl ("nvidia-tesla-" +:+ model)); [|done]. by rewrite <-!string_app_assoc.
Qed.

(** The match is case-sensitive: a model with a character outside
    [[a-z0-9]] yields [None], unless that character is a newline closing
    an otherwise well-formed model. *)
Lemma gke_gpu_to_gpu_case_sensitive (model : string) :
  all_chars Re.lower_alnum model = false →
  (∀ m, model = m +:+ NL → ¬ word Re.lower_alnum m) →
  gke_gpu_to_gpu (GPU:=GPU) ("nvidia-tesla-" +:+ model) = Return None.
Proof.
  intros Hout Hnl. apply gke_gpu_to_gpu_malformed.
  - intros m [[_ Hm] Hs]. apply (inj _) in Hs as ->. congruence.
  - intros s' m Hs [Hw ->]. rewrite string_app_assoc in Hs.
    apply (inj _) in Hs as ->. by eapply Hnl.
Qed.

End GpuStrings.

(** C5 on the code: the string made of [nvidia-tesla-k80] and a newline is
    malformed, and [gke_gpu_to_gpu] returns the GPU kind K80 for it
    instead of [None]. *)
Theorem gke_gpu_to_gpu_trailing_newline :
  (∀ model, ¬ gpu_string ("nvidia-tesla-k80" +:+ NL) model) ∧
  gke_gpu_to_gpu ("nvidia-tesla-k80" +:+ NL) = Return (Some K80).
Proof.
  split; [|done]. intros model [[_ Hm] Hs].
  assert (model = "k80" +:+ NL) as -> by by injection Hs.
  done.
Qed.

(** C10 on the code: the model portion [v100] followed by a newline holds
    a character outside the lower case letters and digits, and
    [gke_gpu_to_gpu] returns the GPU kind V100 for it instead of [None]. *)
Theorem gke_gpu_to_gpu_newline_in_model :
  all_chars Re.lower_alnum ("v100" +:+ NL) = false ∧
  gke_gpu_to_gpu ("nvidia-tesla-" +:+ "v100" +:+ NL) = Return (Some V100).
Proof. done. Qed.

(** The upper case spelling the claim C10 mentions is indeed rejected. *)
Example gke_gpu_to_gpu_upper_case :
  gke_gpu_to_gpu (GPU:=TeslaGPU) "nvidia-tesla-V100" = Return None.
Proof. done. Qed.

(** ** Validation against limits *)

Section Validation.

Context {GPU : Type} `{Countable GPU} `{!PyEnum GPU}.

(** C6.  [validate_gpu_spec_against_limits] returns [False] exactly when
    the requested GPU kind is absent from the limit map or the requested
    count exceeds the mapped maximum, and [True] otherwise; with the limit
    map {A: 2}, the request (A, 2) succeeds, (A, 3) fails and (B, 1)
    fails. *)
Theorem validate_gpu_spec_against_limits_spec :
  (∀ (gpu_spec : GPUSpec GPU) (gpu_limits : gmap GPU Z) (limit_type : string),
     ((validate_gpu_spec_against_limits gpu_spec gpu_limits limit_type).1
      = false ↔
      gpu_limits !! gpu gpu_spec = None ∨
      ∃ maximum, gpu_limits !! gpu gpu_spec = Some maximum ∧
                 count gpu_spec > maximum) ∧
     ((validate_gpu_spec_against_limits gpu_spec gpu_limits limit_type).1
      = true ↔
      ∃ maximum, gpu_limits !! gpu gpu_spec = Some maximum ∧
                 count gpu_spec ≤ maximum)) ∧
  (∀ (A B : GPU) (limit_type : string), A ≠ B →
     (validate_gpu_spec_against_limits (mkGPUSpec A 2) {[A := 2]}
                                       limit_type).1 = true ∧
     (validate_gpu_spec_against_limits (mkGPUSpec A 3) {[A := 2]}
                                       limit_type).1 = false ∧
     (validate_gpu_spec_against_limits (mkGPUSpec B 1) {[A := 2]}
                                       limit_type).1 = false).
Proof.
  split.
  - intros gpu_spec gpu_limits limit_type.
    unfold validate_gpu_spec_against_limits.
    destruct (gpu_limits !! gpu gpu_spec) as [maximum|]; simpl.
    + case_bool_decide; simpl; split; split; try done.
      * intros _. right. by exists maximum.
      * intros [m [[= <-] ?]]. lia.
      * intros [[=] | [m [[= <-] ?]]]. lia.
      * intros _. exists maximum. split; [done|lia].
    + split; split; try done; [by left|]. by intros [m [[=] _]].
  - intros A B limit_type HAB. unfold validate_gpu_spec_against_limits.
    simpl. rewrite lookup_singleton_eq, lookup_singleton_ne by done.
    done.
Qed.

(** A refusal is logged, an acceptance is not. *)
Lemma validate_gpu_spec_against_limits_log (gpu_spec : GPUSpec GPU)
    (gpu_limits : gmap GPU Z) (limit_type : string) :
  (validate_gpu_spec_against_limits gpu_spec gpu_limits limit_type).1 = true ↔
  (validate_gpu_spec_against_limits gpu_spec gpu_limits limit_type).2 = [].
Proof.
  unfold validate_gpu_spec_against_limits.
  destruct (gpu_limits !! gpu gpu_spec); [case_bool_decide|]; by simpl.
Qed.

End Validation.

Lemma validate_gpu_spec_against_limits_spec_witness :
  (validate_gpu_spec_against_limits (mkGPUSpec V100 2) {[V100 := 2]}
                                    "zone").1 = true ∧
  (validate_gpu_spec_against_limits (mkGPUSpec V100 3) {[V100 := 2]}
                                    "zone").1 = false ∧
  (validate_gpu_spec_against_limits (mkGPUSpec K80 1) {[V100 := 2]}
                                    "zone").1 = false.
Proof.
  apply (proj2 validate_gpu_spec_against_limits_spec V100 K80 "zone").
  discriminate.
Defined.

(** ** The operation poller *)


Lemma non_terminal_elem (conditions : list OpStatus) (r : reply) :
  non_terminal conditions r →
  ∃ rsp status, r = Responds rsp ∧ rsp !! "status" = Some status ∧
                status ∉ PyStr <$> (enum_name <$> conditions).
Proof.
  intros (rsp & status & -> & Hs & Hne). exists rsp, status.
  split_and!; [done..|].
  intros (name & -> & (c & -> & Hc)%list_elem_of_fmap)%list_elem_of_fmap.
  by eapply Hne.
Qed.








(** C7.  With an empty set of terminal conditions [wait_for_operation]
    returns [None] at once: no query is issued and no reply of the API is
    consumed. *)
Theorem wait_for_operation_no_conditions (cluster_api : list reply)
    (name message : string) (sleep_sec : Z) (spinner : bool) :
  let r := wait_for_operation cluster_api name [] sleep_sec message spinner in
  outcome r = Some (Return None) ∧ unread r = cluster_api ∧
  trace r = [] ∧ queries (trace r) = 0%nat.
Proof. done. Qed.

(** ** The confirmation prompt *)

Lemma answer_None (default : bool) (line : string) :
  answer default line = None →
  String.length (lower line) ≠ 0%nat ∧ lower line ∉ ["y"; "n"].
Proof.
  unfold answer. repeat case_decide; try done. intros _. split.
  - by rewrite lower_length_0.
  - rewrite !elem_of_cons, lower_y, lower_n, elem_of_nil. tauto.
Qed.

Lemma answer_Some (default : bool) (line : string) (b : bool) :
  answer default line = Some b →
  (line = "" ∧ b = default) ∨
  (String.length (lower line) ≠ 0%nat ∧ lower line ∈ ["y"; "n"] ∧
   b = bool_decide (lower line = "y")).
Proof.
  unfold answer.
  destruct (decide (line = "")) as [->|Hne]; [intros [= <-]; by left|].
  assert (String.length (lower line) ≠ 0%nat) by by rewrite lower_length_0.
  destruct (decide (line = "y" ∨ line = "Y")) as [Hy|Hny].
  { intros [= <-]. right. apply lower_y in Hy. rewrite Hy in *.
    split_and!; [done| |done]. apply list_elem_of_here. }
  destruct (decide (line = "n" ∨ line = "N")) as [Hn|Hnn]; [|done].
  intros [= <-]. right. apply lower_n in Hn. rewrite Hn in *.
  split_and!; [done| |done]. apply list_elem_of_further, list_elem_of_here.
Qed.

(** C8.  [user_verify] prompts again, after the notice, for every line
    that is neither empty nor y nor n in either case, and stops at the
    first line that is: an empty line makes it return the default, y makes
    it return [True], n makes it return [False]; the lines after that one
    are left unread. *)
Theorem user_verify_dialogue (msg : string) (default : bool)
    (pre : list string) (line : string) (post : list string)
    (out : list event) (b : bool) :
  Forall (λ l, answer default l = None) pre →
  answer default line = Some b →
  user_verify msg default (pre ++ line :: post) out
  = Run (Return b) post (out ++ dialogue msg default (length pre)).
Proof.
  intros Hpre Hline. revert out.
  induction Hpre as [|l pre Hl Hpre IH]; intros out; simpl.
  - apply answer_Some in Hline as [[-> ->] | (Hlen & Hin & ->)]; [done|].
    rewrite decide_False by done. by rewrite bool_decide_false by auto.
  - apply answer_None in Hl as [Hlen Hout].
    rewrite decide_False by done. rewrite bool_decide_true by done.
    rewrite IH. by rewrite <-!(assoc_L (++)).
Qed.

Lemma user_verify_dialogue_witness :
  user_verify "delete cluster?" false ["maybe"; "Y"; "n"] []
  = Run (Return true) ["n"] (dialogue "delete cluster?" false 1).
Proof.
  apply (user_verify_dialogue "delete cluster?" false ["maybe"] "Y" ["n"] []
           true).
  - repeat constructor.
  - reflexivity.
Defined.

(** When the input ends before a valid line, [input()] raises. *)
Lemma user_verify_eof (msg : string) (default : bool) (lines : list string)
    (out : list event) :
  Forall (λ l, answer default l = None) lines →
  user_verify msg default lines out
  = Run (Raise EOFError) [] (out ++ dialogue msg default (length lines)).
Proof.
  intros Hpre. revert out.
  induction Hpre as [|l pre Hl Hpre IH]; intros out; simpl; [done|].
  apply answer_None in Hl as [Hlen Hout].
  rewrite decide_False by done. rewrite bool_decide_true by done.
  rewrite IH. by rewrite <-!(assoc_L (++)).
Qed.

(** ** Quota translation *)

Section Quotas.

Variable MAX_GB_PER_CPU : Z.

Lemma gpu_metric_not_cpus (metric model : string) :
  gpu_metric metric model → metric ≠ "CPUS".
Proof. by intros [_ ->]. Qed.

(** One turn of the loop does what the specification says of one record,
    provided the metric does not end with a newline. *)
Lemma quota_turn_translates (limits : list dict) (q : dict)
    (new : list dict) :
  translates MAX_GB_PER_CPU q new → metric_without_newline q →
  quota_turn MAX_GB_PER_CPU limits q = Return (limits ++ new).
Proof.
  intros Ht Hnl. unfold quota_turn, getitem.
  destruct Ht as [limit n Hm Hl Hn | metric model limit Hm Hg Hl
                 | metric limit Hm Hcpu Hg Hl]; rewrite Hm, Hl;
    cbn [mbind result_bind bind].
  - rewrite decide_True by done. rewrite Hn.
    cbn [mbind result_bind bind mret result_ret].
    by rewrite <-(assoc_L (++)).
  - rewrite decide_False by (intros [= ->]; by eapply gpu_metric_not_cpus).
    unfold Re.re_match.
    assert (Re.quota_gpu_re metric = Some model) as ->; [|done].
    destruct Hg as [Hw ->]. apply quota_gpu_re_spec. auto.
  - rewrite decide_False by congruence. unfold Re.re_match.
    destruct (Re.quota_gpu_re metric) as [model|] eqn:Hre.
    + exfalso. apply quota_gpu_re_spec in Hre as [Hw [-> | ->]].
      * by apply (Hg model).
      * eapply (Hnl _ Hm ("NVIDIA_" +:+ model +:+ "_GPUS")).
        by rewrite <-!string_app_assoc.
    + cbn [mbind result_bind bind mret result_ret].
      by rewrite (right_id_L [] (++)).
Qed.

Lemma quota_loop_translates (quotas : list dict) (news : list (list dict))
    (limits : list dict) :
  Forall2 (translates MAX_GB_PER_CPU) quotas news →
  Forall metric_without_newline quotas →
  quota_loop MAX_GB_PER_CPU quotas limits = Return (limits ++ concat news).
Proof.
  intros Ht. revert limits.
  induction Ht as [|q new quotas news Hq Ht IH]; intros limits Hnl; simpl.
  - by rewrite (right_id_L [] (++)).
  - apply Forall_cons in Hnl as [Hq' Hnl].
    rewrite (quota_turn_translates limits q new) by done.
    cbn [mbind result_bind bind]. rewrite IH by done.
    by rewrite (assoc_L (++)).
Qed.

(** The part of C1 that holds.  When no metric ends with a newline, the
    limits are the translations of the records, concatenated in the order
    of the input: the CPU expansion stands where the CPUS record stood and
    a repeated metric is translated each time it occurs. *)
Lemma resource_limits_from_quotas_translates (quotas : list dict)
    (news : list (list dict)) :
  Forall2 (translates MAX_GB_PER_CPU) quotas news →
  Forall metric_without_newline quotas →
  resource_limits_from_quotas MAX_GB_PER_CPU quotas
  = Return (Some (concat news)).
Proof.
  intros Ht Hnl. apply trap_silent_Return.
  unfold resource_limits_from_quotas_fn.
  by rewrite (quota_loop_translates quotas news []).
Qed.

(** Every well-formed record has a translation. *)
Lemma translates_total (q : dict) :
  well_formed_quota q → metric_without_newline q →
  ∃ new, translates MAX_GB_PER_CPU q new.
Proof.
  intros (metric & limit & Hm & Hl & Hint) Hnl.
  destruct (decide (metric = "CPUS")) as [->|Hcpu].
  { destruct Hint as [n Hn]; [done|]. eexists. by eapply translates_cpu. }
  destruct (Re.quota_gpu_re metric) as [model|] eqn:Hre.
  - apply quota_gpu_re_spec in Hre as [Hw [-> | ->]].
    + eexists. by eapply translates_gpu.
    + exfalso. eapply (Hnl _ Hm ("NVIDIA_" +:+ model +:+ "_GPUS")).
      by rewrite <-!string_app_assoc.
  - exists []. eapply translates_other; [done..| |done].
    intros model [Hw ->].
    assert (Re.quota_gpu_re ("NVIDIA_" +:+ model +:+ "_GPUS") = Some model)
      by (apply quota_gpu_re_spec; auto).
    congruence.
Qed.

Lemma limit_maximum_str (limit : pyval) : limit_maximum limit (str limit).
Proof. split; [done|]. intros z ->. apply str_decimal. Qed.

Lemma memory_maximum_str (limit : pyval) (n : Z) :
  int limit = Return n →
  memory_maximum MAX_GB_PER_CPU limit (str (PyInt (n * MAX_GB_PER_CPU))).
Proof. intros Hn. exists n. split_and!; [done..|]. apply str_decimal. Qed.

Lemma quota_turn_emits (limits : list dict) (q : dict)
    (limits' : list dict) :
  quota_turn MAX_GB_PER_CPU limits q = Return limits' →
  ∃ new, limits' = limits ++ new ∧ emits MAX_GB_PER_CPU q new.
Proof.
  unfold quota_turn, getitem.
  destruct (q !! "metric") as [metric|] eqn:Hm; [|done].
  destruct (q !! "limit") as [limit|] eqn:Hl; [|done].
  cbn [mbind result_bind bind].
  case_decide as Hcpu.
  - subst metric. destruct (int limit) as [n|e] eqn:Hn; [|done].
    cbn [mbind result_bind bind mret result_ret]. intros [= <-].
    eexists. split; [by rewrite <-(assoc_L (++))|].
    apply (emits_cpu _ _ limit); [done..|apply limit_maximum_str|].
    by apply memory_maximum_str.
  - destruct metric as [z|x|metric|]; try done. unfold Re.re_match.
    cbn [mbind result_bind bind].
    assert (metric ≠ "CPUS") by congruence.
    destruct (Re.quota_gpu_re metric) as [model|]; intros [= <-].
    + eexists. split; [done|].
      apply (emits_gpu _ _ metric limit); [done..|apply limit_maximum_str].
    + exists []. split; [by rewrite (right_id_L [] (++))|].
      by apply (emits_nothing _ _ metric).
Qed.

Lemma quota_loop_emits (quotas : list dict) (limits limits' : list dict) :
  quota_loop MAX_GB_PER_CPU quotas limits = Return limits' →
  ∃ per, Forall2 (emits MAX_GB_PER_CPU) quotas per ∧
         limits' = limits ++ concat per.
Proof.
  revert limits. induction quotas as [|q quotas IH]; intros limits; simpl.
  - intros [= <-]. exists []. split; [constructor|].
    simpl. by rewrite (right_id_L [] (++)).
  - destruct (quota_turn MAX_GB_PER_CPU limits q) as [limits1|] eqn:Hturn;
      [|done].
    cbn [mbind result_bind bind]. intros Hloop.
    apply quota_turn_emits in Hturn as (new & -> & Hnew).
    apply IH in Hloop as (per & Hper & ->).
    exists (new :: per). split; [by constructor|].
    simpl. by rewrite (assoc_L (++)).
Qed.

Lemma emits_strings (q : dict) (new : list dict) :
  emits MAX_GB_PER_CPU q new →
  Forall (λ l, ∃ s, l !! "maximum" = Some (PyStr s)) new.
Proof. intros []; repeat constructor; by eexists. Qed.

(** C9.  Every [maximum] of the limit records emitted by
    [resource_limits_from_quotas] is a string.  The records are those of
    the quotas, in order: the CPUS quota gives a cpu record whose maximum
    is [str()] of the limit and a memory record whose maximum is the
    decimal rendering of the integer product of [int()] of the limit with
    the constant, taken before [str()]; a GPU quota gives one record whose
    maximum is [str()] of the limit; and [str()] of an integer limit is
    its decimal rendering. *)
Theorem resource_limits_maximum_is_string (quotas limits : list dict) :
  resource_limits_from_quotas MAX_GB_PER_CPU quotas = Return (Some limits) →
  (∃ per, Forall2 (emits MAX_GB_PER_CPU) quotas per ∧ limits = concat per) ∧
  Forall (λ l, ∃ s, l !! "maximum" = Some (PyStr s)) limits.
Proof.
  unfold resource_limits_from_quotas, trap, resource_limits_from_quotas_fn.
  destruct (quota_loop MAX_GB_PER_CPU quotas []) as [limits0|e] eqn:Hloop;
    cbn [mbind result_bind bind mret result_ret fst];
    [|by destruct (is_Exception e)].
  intros [= <-]. apply quota_loop_emits in Hloop as (per & Hper & ->).
  simpl. split; [by exists per|].
  clear -Hper. induction Hper as [|q new quotas per Hq _ IH]; [done|].
  simpl. apply Forall_app. split; [by eapply emits_strings|done].
Qed.

End Quotas.

Lemma resource_limits_maximum_is_string_witness :
  let quotas := [quota "CPUS" (PyInt 4);
                 quota "CPUS" (PyFloat (Finite "4.5" 4));
                 quota "NVIDIA_V100_GPUS" (PyInt 2);
                 quota "DISKS" (PyInt 10)] in
  let limits := [limit_record "cpu" "4"; limit_record "memory" "64";
                 limit_record "cpu" "4.5"; limit_record "memory" "64";
                 limit_record "nvidia-tesla-v100" "2"] in
  (∃ per, Forall2 (emits 16) quotas per ∧ limits = concat per) ∧
  Forall (λ l, ∃ s, l !! "maximum" = Some (PyStr s)) limits.
Proof.
  apply (resource_limits_maximum_is_string 16
           [quota "CPUS" (PyInt 4);
            quota "CPUS" (PyFloat (Finite "4.5" 4));
            quota "NVIDIA_V100_GPUS" (PyInt 2);
            quota "DISKS" (PyInt 10)]).
  reflexivity.
Defined.

(** The examples of the specification, with 16 GB per CPU. *)
Example resource_limits_examples :
  resource_limits_from_quotas 16 [quota "CPUS" (PyInt 4)]
  = Return (Some [limit_record "cpu" "4"; limit_record "memory" "64"]) ∧
  resource_limits_from_quotas 16 [quota "NVIDIA_V100_GPUS" (PyInt 2)]
  = Return (Some [limit_record "nvidia-tesla-v100" "2"]) ∧
  resource_limits_from_quotas 16 [quota "DISKS" (PyInt 10)]
  = Return (Some []).
Proof. split_and!; reflexivity. Qed.

(** C1 on the code: the metric made of [NVIDIA_V100_GPUS] and a newline is
    neither CPUS nor of the form [NVIDIA_<MODEL>_GPUS], so the
    specification translates its record to nothing, and
    [resource_limits_from_quotas] emits a limit record for it. *)
Theorem resource_limits_from_quotas_trailing_newline :
  let q := quota ("NVIDIA_V100_GPUS" +:+ NL) (PyInt 2) in
  translates 16 q [] ∧
  resource_limits_from_quotas 16 [q]
  = Return (Some [limit_record "nvidia-tesla-v100" "2"]).
Proof.
  split; [|reflexivity].
  eapply translates_other; [reflexivity|done| |reflexivity].
  intros model Hg.
  assert (Re.quota_gpu_re ("NVIDIA_V100_GPUS" +:+ NL) = Some model) as Hre
    by (apply quota_gpu_re_spec; destruct Hg; auto).
  vm_compute in Hre. injection Hre as <-. by destruct Hg as [_ Hs].
Qed.

(** * Further properties *)

(** ** The error trap *)

(** A trapped call returns, unless the wrapped function raised an
    exception that is not derived from [Exception]. *)
Lemma trap_cases {A B} (error_value : B) (silent : bool) (fn : A → result B)
    (args : A) :
  (∃ v, (trap error_value silent fn args).1 = Return v) ∨
  (∃ e, fn args = Raise e ∧ is_Exception e = false ∧
        (trap error_value silent fn args).1 = Raise e).
Proof.
  unfold trap. destruct (fn args) as [v|e]; [by eauto|].
  destruct (is_Exception e) eqn:He; simpl; eauto.
Qed.

(** The flag [silent] only decides whether a trapped exception is logged:
    the result is the same with and without it, a silent wrapper logs
    nothing, and a wrapper that is not silent logs exactly when it traps
    an exception. *)
Theorem trap_silent_only_logs {A B} (error_value : B) (fn : A → result B)
    (args : A) :
  (trap error_value true fn args).1 = (trap error_value false fn args).1 ∧
  (trap error_value true fn args).2 = [] ∧
  ((trap error_value false fn args).2 ≠ [] ↔
   ∃ e, fn args = Raise e ∧ is_Exception e = true).
Proof.
  unfold trap. destruct (fn args) as [v|e]; simpl.
  - split_and!; [done..|]. split; [done|]. by intros (e & ? & _).
  - destruct (is_Exception e) eqn:He; simpl; split_and!; try done.
    + split; [by eauto|done].
    + split; [done|]. intros (e' & [= <-] & ?). congruence.
Qed.

(** Wrapping a function that is already trapped changes nothing: the
    outer wrapper never substitutes its own sentinel and never logs. *)
Theorem trap_nested {A B} (inner outer : B) (silent silent' : bool)
    (fn : A → result B) (args : A) :
  trap outer silent' (λ a, (trap inner silent fn a).1) args
  = ((trap inner silent fn args).1, []).
Proof.
  unfold trap. destruct (fn args) as [v|e]; [done|].
  destruct (is_Exception e) eqn:He; simpl; [done|]. by rewrite He.
Qed.

(** ** Validation against limits *)

Section ValidationMore.

Context {GPU : Type} `{Countable GPU} `{!PyEnum GPU}.

(** A request that is valid stays valid when its count is lowered or the
    limit of its kind is raised; the limits of the other kinds and the
    label play no part. *)
Theorem validate_gpu_spec_against_limits_monotone (g : GPU) (c c' m m' : Z)
    (gpu_limits gpu_limits' : gmap GPU Z) (limit_type limit_type' : string) :
  (validate_gpu_spec_against_limits (mkGPUSpec g c) gpu_limits
                                    limit_type).1 = true →
  gpu_limits !! g = Some m → gpu_limits' !! g = Some m' →
  c' ≤ c → m ≤ m' →
  (validate_gpu_spec_against_limits (mkGPUSpec g c') gpu_limits'
                                    limit_type').1 = true.
Proof.
  unfold validate_gpu_spec_against_limits. simpl. intros Hv Hl Hl' Hc Hm.
  rewrite Hl in Hv. rewrite Hl'. revert Hv.
  case_bool_decide; [done|]. intros _.
  by rewrite bool_decide_false by lia.
Qed.

End ValidationMore.

Lemma validate_gpu_spec_against_limits_monotone_witness :
  (validate_gpu_spec_against_limits (mkGPUSpec V100 1)
     {[V100 := 4; K80 := 1]} "region").1 = true.
Proof.
  apply (validate_gpu_spec_against_limits_monotone V100 2 1 2 4
           {[V100 := 2]} {[V100 := 4; K80 := 1]} "zone" "region").
  - unfold validate_gpu_spec_against_limits. simpl.
    by rewrite lookup_singleton_eq.
  - apply lookup_singleton_eq.
  - apply lookup_insert_eq.
  - lia.
  - lia.
Defined.

(** ** The operation poller *)

Lemma elem_terminal (conditions : list OpStatus) (rsp : dict)
    (status : pyval) :
  rsp !! "status" = Some status →
  status ∈ PyStr <$> (enum_name <$> conditions) → terminal conditions rsp.
Proof.
  intros Hs (name & -> & (c & -> & Hc)%list_elem_of_fmap)%list_elem_of_fmap.
  by exists c.
Qed.

Lemma not_elem_non_terminal (conditions : list OpStatus) (rsp : dict)
    (status : pyval) :
  rsp !! "status" = Some status →
  status ∉ PyStr <$> (enum_name <$> conditions) →
  non_terminal conditions (Responds rsp).
Proof.
  intros Hs Hout. exists rsp, status. split_and!; [done..|].
  intros c Hc ->. apply Hout, list_elem_of_fmap. exists (enum_name c).
  split; [done|]. apply list_elem_of_fmap. by exists c.
Qed.

Lemma _wait_sound (conditions : list OpStatus) (name : string)
    (sleep_sec : Z) (cluster_api : list reply) (tr : list event)
    (rsp : dict) (rest : list reply) (tr' : list event) :
  _wait (enum_name <$> conditions) name sleep_sec cluster_api tr
  = Run (Some (Return (Some rsp))) rest tr' →
  ∃ pre, cluster_api = pre ++ Responds rsp :: rest ∧
         Forall (non_terminal conditions) pre ∧ terminal conditions rsp ∧
         tr' = tr ++ polling name sleep_sec (length pre).
Proof.
  revert tr. induction cluster_api as [|r0 api IH]; intros tr; simpl; [done|].
  destruct r0 as [rsp0|e]; [|done]. unfold getitem.
  destruct (rsp0 !! "status") as [status|] eqn:Hs; [|done].
  case_bool_decide as Hin.
  - intros [= -> -> <-]. exists []. split_and!; [done..| |done].
    by eapply elem_terminal.
  - destruct (sleep sleep_sec) as [[]|e]; [|done]. intros Hr.
    destruct (IH _ Hr) as (pre & -> & Hpre & Hrsp & ->).
    exists (Responds rsp0 :: pre). split_and!; [done|constructor|done|].
    + by eapply not_elem_non_terminal.
    + done.
    + by rewrite <-!(assoc_L (++)).
Qed.

(** Whenever [wait_for_operation] returns a response, that response is
    the first of the replies whose status is one of the conditions: every
    reply before it was a response of another status, the replies after
    it are untouched, and the queries and sleeps alternate. *)
Theorem wait_for_operation_returns_first_terminal
    (cluster_api : list reply) (name message : string)
    (conditions : list OpStatus) (sleep_sec : Z) (spinner : bool)
    (rsp : dict) :
  let r := wait_for_operation cluster_api name conditions sleep_sec message
                              spinner in
  outcome r = Some (Return (Some rsp)) →
  ∃ pre, cluster_api = pre ++ Responds rsp :: unread r ∧
         Forall (non_terminal conditions) pre ∧ terminal conditions rsp ∧
         trace r = polling name sleep_sec (length pre).
Proof.
  unfold wait_for_operation, wait_for_operation_fn.
  case_decide; [done|].
  assert (∀ b : bool, (if b
     then _wait (enum_name <$> conditions) name sleep_sec cluster_api []
     else _wait (enum_name <$> conditions) name sleep_sec cluster_api [])
     = _wait (enum_name <$> conditions) name sleep_sec cluster_api []) as ->
    by by intros [].
  pose proof (_wait_sound conditions name sleep_sec cluster_api [] rsp) as Hw.
  destruct (_wait _ name sleep_sec cluster_api []) as [[[o|e]|] u t];
    simpl in *; [|by unfold trap; simpl; destruct (is_Exception e)|done].
  intros [= ->]. by apply Hw.
Qed.

Lemma wait_for_operation_returns_first_terminal_witness :
  ∃ pre,
    [Responds (status_response "PENDING");
     Responds (status_response "ABORTING");
     Responds (status_response "DONE")]
    = pre ++ [Responds (status_response "ABORTING");
              Responds (status_response "DONE")] ∧
    Forall (non_terminal default_conditions) pre ∧
    terminal default_conditions (status_response "ABORTING") ∧
    [Query "operation-1"; Sleep 1; Query "operation-1"]
    = polling "operation-1" 1 (length pre).
Proof.
  apply (wait_for_operation_returns_first_terminal
           [Responds (status_response "PENDING");
            Responds (status_response "ABORTING");
            Responds (status_response "DONE")]
           "operation-1" "" default_conditions default_sleep_sec true
           (status_response "ABORTING")).
  reflexivity.
Defined.




(** With a negative interval the poll ends at the first status that is
    not terminal: [sleep] raises on it, so the call returns [None] after
    one query and without sleeping. *)
Theorem wait_for_operation_negative_interval (conditions : list OpStatus)
    (name message : string) (sleep_sec : Z) (spinner : bool)
    (first : reply) (rest : list reply) :
  conditions ≠ [] → sleep_sec < 0 → non_terminal conditions first →
  let r := wait_for_operation (first :: rest) name conditions sleep_sec
                              message spinner in
  outcome r = Some (Return None) ∧ unread r = rest ∧
  trace r = [Query name].
Proof.
  intros Hne Hsleep (rsp & status & -> & Hs & Hout)%non_terminal_elem.
  unfold wait_for_operation, wait_for_operation_fn.
  destruct conditions as [|c conditions]; [done|].
  rewrite decide_False by done.
  assert (_wait (enum_name <$> c :: conditions) name sleep_sec
                (Responds rsp :: rest) []
          = Run (Some (Raise ValueError)) rest [Query name]) as Hw.
  { simpl. unfold getitem. rewrite Hs.
    rewrite bool_decide_false by done. unfold sleep.
    by rewrite bool_decide_true by lia. }
  destruct spinner; by rewrite Hw.
Qed.

Lemma wait_for_operation_negative_interval_witness :
  let r := wait_for_operation
             [Responds (status_response "RUNNING");
              Responds (status_response "DONE")]
             "operation-1" [DONE] (-1) "" false in
  outcome r = Some (Return None) ∧
  unread r = [Responds (status_response "DONE")] ∧
  trace r = [Query "operation-1"].
Proof.
  apply (wait_for_operation_negative_interval [DONE] "operation-1" "" (-1)
           false (Responds (status_response "RUNNING"))
           [Responds (status_response "DONE")]).
  - discriminate.
  - lia.
  - exists (status_response "RUNNING"), (PyStr "RUNNING").
    split_and!; [reflexivity..|].
    intros c Hc; apply list_elem_of_singleton in Hc; subst c; discriminate.
Defined.

(** With an interval beyond [sleep_max] the poll ends in the same way:
    [sleep] raises [OverflowError] on it, so a first status that is not
    terminal gives [None] after one query and without sleeping. *)
Theorem wait_for_operation_interval_too_long (conditions : list OpStatus)
    (name message : string) (sleep_sec : Z) (spinner : bool)
    (first : reply) (rest : list reply) :
  conditions ≠ [] → sleep_max < sleep_sec → non_terminal conditions first →
  let r := wait_for_operation (first :: rest) name conditions sleep_sec
                              message spinner in
  outcome r = Some (Return None) ∧ unread r = rest ∧
  trace r = [Query name].
Proof.
  intros Hne Hsleep (rsp & status & -> & Hs & Hout)%non_terminal_elem.
  unfold wait_for_operation, wait_for_operation_fn.
  destruct conditions as [|c conditions]; [done|].
  rewrite decide_False by done.
  assert (_wait (enum_name <$> c :: conditions) name sleep_sec
                (Responds rsp :: rest) []
          = Run (Some (Raise OverflowError)) rest [Query name]) as Hw.
  { simpl. unfold getitem. rewrite Hs.
    rewrite bool_decide_false by done. unfold sleep.
    rewrite bool_decide_false by (unfold sleep_max in Hsleep; lia).
    by rewrite bool_decide_true by lia. }
  destruct spinner; by rewrite Hw.
Qed.

Lemma wait_for_operation_interval_too_long_witness :
  let r := wait_for_operation
             [Responds (status_response "RUNNING");
              Responds (status_response "DONE")]
             "operation-1" [DONE] 10000000000 "" false in
  outcome r = Some (Return None) ∧
  unread r = [Responds (status_response "DONE")] ∧
  trace r = [Query "operation-1"].
Proof.
  apply (wait_for_operation_interval_too_long [DONE] "operation-1" ""
           10000000000 false (Responds (status_response "RUNNING"))
           [Responds (status_response "DONE")]).
  - discriminate.
  - unfold sleep_max. lia.
  - exists (status_response "RUNNING"), (PyStr "RUNNING").
    split_and!; [reflexivity..|].
    intros c Hc; apply list_elem_of_singleton in Hc; subst c; discriminate.
Defined.


(** ** The confirmation prompt *)

Lemma user_verify_eof_witness :
  user_verify "delete cluster?" true ["yes"; "no"] []
  = Run (Raise EOFError) [] (dialogue "delete cluster?" true 2).
Proof.
  apply (user_verify_eof "delete cluster?" true ["yes"; "no"] []).
  repeat constructor.
Defined.

Lemma user_verify_turned_down (msg : string) (default : bool) (line : string)
    (stdin : list string) (out : list event) :
  answer default line = None →
  user_verify msg default (line :: stdin) out
  = user_verify msg default stdin
      (out ++ [Prompt (prompt_text msg default); Print "please enter y or n"]).
Proof.
  intros [Hlen Hout]%answer_None. simpl.
  rewrite decide_False by done. rewrite bool_decide_true by done.
  by rewrite <-(assoc_L (++)).
Qed.

Lemma user_verify_taken (msg : string) (default : bool) (line : string)
    (stdin : list string) (out : list event) (b : bool) :
  answer default line = Some b →
  user_verify msg default (line :: stdin) out
  = Run (Return b) stdin (out ++ [Prompt (prompt_text msg default)]).
Proof.
  intros [[-> ->] | (Hlen & Hin & ->)]%answer_Some; simpl; [done|].
  rewrite decide_False by done. by rewrite bool_decide_false by auto.
Qed.

(** Whenever [user_verify] returns, its value is the meaning of the first
    line that is empty, y or n in either case: every line before it was
    turned down with the notice, and the lines after it are unread. *)
Theorem user_verify_returns_first_answer (msg : string) (default : bool)
    (stdin : list string) (out : list event) (b : bool)
    (rest : list string) (out' : list event) :
  user_verify msg default stdin out = Run (Return b) rest out' →
  ∃ pre line, stdin = pre ++ line :: rest ∧
    Forall (λ l, answer default l = None) pre ∧
    answer default line = Some b ∧
    out' = out ++ dialogue msg default (length pre).
Proof.
  revert out. induction stdin as [|l stdin IH]; intros out; [done|].
  destruct (answer default l) as [b'|] eqn:Hl.
  - rewrite (user_verify_taken _ _ _ _ _ b') by done.
    intros [= <- <- <-]. by exists [], l.
  - rewrite user_verify_turned_down by done. intros Hrun.
    destruct (IH _ Hrun) as (pre & line & -> & Hpre & Hline & ->).
    exists (l :: pre), line. split_and!; [done|by constructor|done|].
    by rewrite <-(assoc_L (++)).
Qed.

Lemma user_verify_returns_first_answer_witness :
  ∃ pre line, ["x"; "N"; "y"] = pre ++ line :: ["y"] ∧
    Forall (λ l, answer true l = None) pre ∧
    answer true line = Some false ∧
    dialogue "proceed?" true 1 = [] ++ dialogue "proceed?" true (length pre).
Proof.
  apply (user_verify_returns_first_answer "proceed?" true ["x"; "N"; "y"] []
           false ["y"] (dialogue "proceed?" true 1)).
  reflexivity.
Defined.

(** ** TPU strings *)

Lemma decimal_from_nonneg (acc : Z) (d : string) :
  0 ≤ acc → all_chars is_digit d = true → 0 ≤ decimal_from acc d.
Proof.
  revert acc. induction d as [|c d IH]; intros acc Hacc Hd; simpl; [done|].
  simpl in Hd. apply andb_true_iff in Hd as [Hc Hd].
  apply IH; [|done]. pose proof (digit_val_range c Hc). lia.
Qed.

(** [gke_tpu_to_tpuspec] returns a TPUSpec for exactly the strings
    [v2-<digits>] and [v3-<digits>], alone or followed by one newline; the
    version and the number written by the digits are what it returns. *)
Theorem gke_tpu_to_tpuspec_exact (s : string) (spec : TPUSpec) :
  gke_tpu_to_tpuspec s = Return (Some spec) ↔
  tpu_string s (tpu spec) (tpu_count spec) ∨
  ∃ s', s = s' +:+ NL ∧ tpu_string s' (tpu spec) (tpu_count spec).
Proof.
  split.
  - destruct (Re.tpu_re s) as [[version digits]|] eqn:Hm.
    + rewrite (gke_tpu_to_tpuspec_match _ _ _ Hm). intros [= <-]. simpl.
      apply tpu_re_spec in Hm as (Hv & Hw & Hs).
      assert (tpu_string (version +:+ "-" +:+ digits)
                (if decide (version = "v2") then V2 else V3)
                (decimal digits)) as Ht.
      { exists digits. destruct Hv as [-> | ->]; split_and!; auto. }
      destruct Hs as [-> | ->]; [by left|right].
      exists (version +:+ "-" +:+ digits).
      split; [by rewrite !string_app_assoc|done].
    + by rewrite gke_tpu_to_tpuspec_no_match.
  - destruct spec as [kind n]. simpl. intros [Ht | (s' & -> & Ht)].
    + by apply gke_tpu_to_tpuspec_accepts.
    + by apply gke_tpu_to_tpuspec_newline.
Qed.

(** [gke_tpu_to_tpuspec] never raises, and the count of a TPUSpec it
    returns is never negative. *)
Theorem gke_tpu_to_tpuspec_count_nonneg (s : string) :
  ∃ o, gke_tpu_to_tpuspec s = Return o ∧
       ∀ spec, o = Some spec → 0 ≤ tpu_count spec.
Proof.
  destruct (Re.tpu_re s) as [[version digits]|] eqn:Hm.
  - rewrite (gke_tpu_to_tpuspec_match _ _ _ Hm). eexists. split; [done|].
    intros spec [= <-]. simpl.
    apply tpu_re_spec in Hm as (_ & [_ Hd] & _).
    by apply decimal_from_nonneg.
  - rewrite gke_tpu_to_tpuspec_no_match by done. by exists None.
Qed.

(** ** GPU strings and GPU quotas *)

Lemma lower_upper_alnum (s : string) :
  all_chars Re.upper_alnum s = true →
  all_chars Re.lower_alnum (lower s) = true ∧ upper (lower s) = s.
Proof.
  induction s as [|c s IH]; [done|]. simpl.
  intros [Hc Hs]%andb_true_iff. destruct (IH Hs) as [IH1 IH2].
  unfold lower, upper in *. simpl. split.
  - by rewrite (lower_char_upper_alnum c Hc), IH1.
  - rewrite IH2. f_equal. clear -Hc. by_bits c.
Qed.

Lemma lower_word (s : string) :
  word Re.upper_alnum s → word Re.lower_alnum (lower s).
Proof.
  intros [Hne Hs]. split; [by destruct s|]. by apply lower_upper_alnum.
Qed.

Lemma enum_getitem_member {E} `{PyEnum E} (m : E) :
  In m enum_members →
  (∀ m', In m' enum_members → enum_name m' = enum_name m → m' = m) →
  enum_getitem (enum_name m) = Return m.
Proof.
  intros Hin Huniq. unfold enum_getitem.
  destruct (find _ enum_members) as [m'|] eqn:Hfind.
  - apply find_some in Hfind as [Hin' Heq%String.eqb_eq].
    by rewrite (Huniq m').
  - eapply find_none in Hfind; [|done]. simpl in Hfind.
    by rewrite String.eqb_refl in Hfind.
Qed.

Section GpuStringsMore.

Context {GPU : Type} `{Countable GPU} `{!PyEnum GPU}.
Variable MAX_GB_PER_CPU : Z.

(** [gke_gpu_to_gpu] returns a GPU for exactly the strings
    [nvidia-tesla-<model>], alone or followed by one newline, whose model
    is made of lower case letters and digits and, in upper case, is the
    name of a member; that member is what it returns. *)
Theorem gke_gpu_to_gpu_exact (s : string) (g : GPU) :
  gke_gpu_to_gpu s = Return (Some g) ↔
  ∃ model, (gpu_string s model ∨ ∃ s', s = s' +:+ NL ∧ gpu_string s' model) ∧
           enum_getitem (upper model) = Return g.
Proof.
  split.
  - destruct (Re.gpu_re s) as [model|] eqn:Hm.
    + rewrite (gke_gpu_to_gpu_match _ _ Hm).
      destruct (enum_getitem (upper model)) as [g'|e] eqn:Hg; [|done].
      intros [= <-]. exists model. split; [|done].
      apply gpu_re_spec in Hm as [Hw [-> | ->]]; [by left|right].
      exists ("nvidia-tesla-" +:+ model).
      split; [by rewrite !string_app_assoc|done].
    + by rewrite gke_gpu_to_gpu_no_match.
  - intros (model & Hs & Hg).
    rewrite (gke_gpu_to_gpu_match s model); [by rewrite Hg|].
    apply gpu_re_spec.
    destruct Hs as [[Hw ->] | (s' & -> & [Hw ->])]; split; auto.
Qed.

(** Every member whose name is made of upper case letters and digits, and
    is borne by no other member, is reached from its accelerator string:
    [nvidia-tesla-] followed by the name in lower case. *)
Theorem gke_gpu_to_gpu_of_member (g : GPU) :
  In g enum_members → word Re.upper_alnum (enum_name g) →
  (∀ g', In g' enum_members → enum_name g' = enum_name g → g' = g) →
  gke_gpu_to_gpu ("nvidia-tesla-" +:+ lower (enum_name g)) = Return (Some g).
Proof.
  intros Hin Hw Huniq.
  rewrite (gke_gpu_to_gpu_match _ (lower (enum_name g))).
  - destruct Hw as [_ Hw]. apply lower_upper_alnum in Hw as [_ ->].
    by rewrite enum_getitem_member.
  - apply gpu_re_spec. split; [by apply lower_word|by left].
Qed.

(** The translator and the converter agree: the resource type emitted for
    the quota metric [NVIDIA_<MODEL>_GPUS] is an accelerator string that
    [gke_gpu_to_gpu] converts to the member named [<MODEL>]. *)
Theorem quota_limit_names_gpu (q : dict) (metric model : string)
    (limit : pyval) (g : GPU) :
  q !! "metric" = Some (PyStr metric) → q !! "limit" = Some limit →
  gpu_metric metric model → enum_getitem model = Return g →
  ∃ resourceType,
    resource_limits_from_quotas MAX_GB_PER_CPU [q]
    = Return (Some [limit_record resourceType (str limit)]) ∧
    gke_gpu_to_gpu resourceType = Return (Some g).
Proof.
  intros Hm Hl Hg Hmember. exists ("nvidia-tesla-" +:+ lower model). split.
  - apply trap_silent_Return.
    unfold resource_limits_from_quotas_fn, quota_loop, quota_turn, getitem.
    rewrite Hm, Hl. cbn [mbind result_bind bind].
    rewrite decide_False
      by (intros [= ->]; by eapply gpu_metric_not_cpus).
    unfold Re.re_match.
    assert (Re.quota_gpu_re metric = Some model) as ->; [|done].
    destruct Hg as [Hw ->]. apply quota_gpu_re_spec. auto.
  - destruct Hg as [Hw _].
    rewrite (gke_gpu_to_gpu_match _ (lower model)).
    + destruct Hw as [_ Hw]. apply lower_upper_alnum in Hw as [_ ->].
      by rewrite Hmember.
    + apply gpu_re_spec. split; [by apply lower_word|by left].
Qed.

End GpuStringsMore.

Lemma gke_gpu_to_gpu_of_member_witness :
  gke_gpu_to_gpu ("nvidia-tesla-" +:+ lower (enum_name V100))
  = Return (Some V100).
Proof.
  apply (gke_gpu_to_gpu_of_member V100).
  - simpl. auto.
  - by split.
  - intros [] _; [discriminate|reflexivity].
Defined.

Lemma quota_limit_names_gpu_witness :
  ∃ resourceType,
    resource_limits_from_quotas 16 [quota "NVIDIA_K80_GPUS" (PyInt 8)]
    = Return (Some [limit_record resourceType (str (PyInt 8))]) ∧
    gke_gpu_to_gpu resourceType = Return (Some K80).
Proof.
  apply (quota_limit_names_gpu 16 (quota "NVIDIA_K80_GPUS" (PyInt 8))
           "NVIDIA_K80_GPUS" "K80" (PyInt 8) K80).
  - reflexivity.
  - reflexivity.
  - by split.
  - reflexivity.
Defined.

(** ** Quota translation *)

Lemma int_raises (v : pyval) (e : exn) :
  int v = Raise e → is_Exception e = true.
Proof.
  destruct v as [z|[rendering truncation|negative|]|s|]; simpl;
    [done|done|by intros [= <-]|by intros [= <-]| |by intros [= <-]].
  unfold int_of_string.
  destruct (match lstrip s with
            | String "-" r => (-1, r)
            | String "+" r => (1, r)
            | _ => (1, lstrip s)
            end) as [sign t].
  destruct (int_digits false 0 t) as [[n rest]|]; [|by intros [= <-]].
  destruct (all_chars is_space rest); [done|by intros [= <-]].
Qed.

Section QuotasMore.

Variable MAX_GB_PER_CPU : Z.

(** One turn of the loop either appends the records of a well-formed
    quota, the same whatever was collected before, or raises on a quota
    that is not well-formed. *)
Lemma quota_turn_cases (q : dict) :
  (well_formed_quota q ∧
   ∃ new, (∀ limits,
             quota_turn MAX_GB_PER_CPU limits q = Return (limits ++ new)) ∧
          Forall limit_shaped new ∧ (length new ≤ 2)%nat) ∨
  (¬ well_formed_quota q ∧
   ∃ e, (∀ limits, quota_turn MAX_GB_PER_CPU limits q = Raise e) ∧
        is_Exception e = true).
Proof.
  unfold quota_turn, getitem.
  destruct (q !! "metric") as [metric|] eqn:Hm; cycle 1.
  { right. split; [intros (? & ? & ? & _); congruence|]. by exists KeyError. }
  destruct (q !! "limit") as [limit|] eqn:Hl; cycle 1.
  { right. split; [intros (? & ? & _ & ? & _); congruence|]. by exists KeyError. }
  cbn [mbind result_bind bind].
  destruct (decide (metric = PyStr "CPUS")) as [->|Hcpu].
  - destruct (int limit) as [n|e] eqn:Hn.
    + left. split; [exists "CPUS", limit; eauto|].
      eexists. split_and!.
      * intros limits. cbn [mbind result_bind bind mret result_ret].
        by rewrite <-(assoc_L (++)).
      * repeat constructor; eexists _, _; (split; [done|]); auto.
      * simpl. lia.
    + right. split.
      * intros (metric & limit' & Hm' & Hl' & Hint).
        assert (metric = "CPUS") as -> by congruence.
        destruct Hint as [n Hn']; [done|]. congruence.
      * exists e. split; [done|]. by eapply int_raises.
  - destruct metric as [z|x|metric|];
      cbn [Re.re_match mbind result_bind bind].
    + right. split; [intros (? & ? & ? & _); congruence|]. by exists TypeError.
    + right. split; [intros (? & ? & ? & _); congruence|]. by exists TypeError.
    + assert (well_formed_quota q) as Hwf.
      { exists metric, limit. split_and!; [done..|]. intros ->. done. }
      destruct (Re.quota_gpu_re metric) as [model|] eqn:Hre.
      * left. split; [done|]. eexists. split_and!; [done| |simpl; lia].
        repeat constructor. eexists _, _. split; [done|].
        right. right. exists (lower model).
        apply quota_gpu_re_spec in Hre as [Hw _].
        split; [by apply lower_word|done].
      * left. split; [done|]. exists []. split_and!; [|done|simpl; lia].
        intros limits. by rewrite (right_id_L [] (++)).
    + right. split; [intros (? & ? & ? & _); congruence|]. by exists TypeError.
Qed.

Lemma quota_loop_cases (quotas : list dict) :
  (Forall well_formed_quota quotas ∧
   ∃ new, (∀ limits,
             quota_loop MAX_GB_PER_CPU quotas limits
             = Return (limits ++ new)) ∧
          Forall limit_shaped new ∧
          (length new ≤ 2 * length quotas)%nat) ∨
  (¬ Forall well_formed_quota quotas ∧
   ∃ e, (∀ limits, quota_loop MAX_GB_PER_CPU quotas limits = Raise e) ∧
        is_Exception e = true).
Proof.
  induction quotas as [|q quotas IH]; simpl.
  { left. split; [done|]. exists []. split_and!; [|done|simpl; lia].
    intros limits. by rewrite (right_id_L [] (++)). }
  destruct (quota_turn_cases q)
    as [(Hq & new & Hturn & Hshape & Hlen) | (Hq & e & Hturn & He)];
    cycle 1.
  { right. split; [by intros [? _]%Forall_cons|].
    exists e. split; [|done]. intros limits. by rewrite Hturn. }
  destruct IH
    as [(Hqs & new' & Hloop & Hshape' & Hlen') | (Hqs & e & Hloop & He)].
  - left. split; [by constructor|]. exists (new ++ new'). split_and!.
    + intros limits. rewrite Hturn. cbn [mbind result_bind bind].
      by rewrite Hloop, (assoc_L (++)).
    + by apply Forall_app.
    + rewrite length_app. lia.
  - right. split; [by intros [_ ?]%Forall_cons|].
    exists e. split; [|done]. intros limits. rewrite Hturn.
    cbn [mbind result_bind bind]. by rewrite Hloop.
Qed.

Lemma resource_limits_from_quotas_cases (quotas : list dict) :
  (Forall well_formed_quota quotas ∧
   ∃ limits,
     quota_loop MAX_GB_PER_CPU quotas [] = Return limits ∧
     resource_limits_from_quotas MAX_GB_PER_CPU quotas
     = Return (Some limits) ∧
     Forall limit_shaped limits ∧
     (length limits ≤ 2 * length quotas)%nat) ∨
  (¬ Forall well_formed_quota quotas ∧
   (∃ e, quota_loop MAX_GB_PER_CPU quotas [] = Raise e) ∧
   resource_limits_from_quotas MAX_GB_PER_CPU quotas = Return None).
Proof.
  unfold resource_limits_from_quotas, trap, resource_limits_from_quotas_fn.
  destruct (quota_loop_cases quotas)
    as [(Hqs & new & Hloop & Hshape & Hlen) | (Hqs & e & Hloop & He)].
  - left. split; [done|]. exists new. by rewrite (Hloop []).
  - right. split; [done|]. rewrite (Hloop []). split; [by eauto|].
    cbn [mbind result_bind bind]. by rewrite He.
Qed.

(** [resource_limits_from_quotas] is all or nothing, and never raises: it
    returns a list exactly when every record has a string metric and a
    limit, which for the CPUS record [int()] accepts; one record that
    falls short, be it of a metric that would be ignored, makes the
    result [None]. *)
Theorem resource_limits_all_or_nothing (quotas : list dict) :
  (Forall well_formed_quota quotas ∧
   ∃ limits, resource_limits_from_quotas MAX_GB_PER_CPU quotas
             = Return (Some limits)) ∨
  (¬ Forall well_formed_quota quotas ∧
   resource_limits_from_quotas MAX_GB_PER_CPU quotas = Return None).
Proof.
  destruct (resource_limits_from_quotas_cases quotas)
    as [(Hqs & limits & _ & Hr & _) | (Hqs & _ & Hr)]; eauto.
Qed.

(** Every limit record emitted has exactly the keys [resourceType] and
    [maximum], both strings; its resource type is cpu, memory or an
    accelerator string [nvidia-tesla-<model>] with the model in lower
    case letters and digits; and there are at most two records per
    quota. *)
Theorem resource_limits_shape (quotas limits : list dict) :
  resource_limits_from_quotas MAX_GB_PER_CPU quotas = Return (Some limits) →
  Forall limit_shaped limits ∧ (length limits ≤ 2 * length quotas)%nat.
Proof.
  destruct (resource_limits_from_quotas_cases quotas)
    as [(_ & limits' & _ & -> & Hshape & Hlen) | (_ & _ & ->)]; [|done].
  by intros [= <-].
Qed.

Lemma quota_loop_app (qa qb limits : list dict) :
  quota_loop MAX_GB_PER_CPU (qa ++ qb) limits
  = (quota_loop MAX_GB_PER_CPU qa limits
     ≫= quota_loop MAX_GB_PER_CPU qb).
Proof.
  revert limits. induction qa as [|q qa IH]; intros limits; simpl; [done|].
  destruct (quota_turn MAX_GB_PER_CPU limits q) as [limits'|e]; [|done].
  cbn [mbind result_bind bind]. apply IH.
Qed.

(** Translation distributes over concatenation: the limits of two lists
    of quotas put end to end are the limits of the first followed by the
    limits of the second, and [None] as soon as one of the two is
    [None]. *)
Theorem resource_limits_from_quotas_app (qa qb : list dict) :
  resource_limits_from_quotas MAX_GB_PER_CPU (qa ++ qb)
  = match resource_limits_from_quotas MAX_GB_PER_CPU qa,
          resource_limits_from_quotas MAX_GB_PER_CPU qb with
    | Return (Some la), Return (Some lb) => Return (Some (la ++ lb))
    | _, _ => Return None
    end.
Proof.
  destruct (quota_loop_cases qa)
    as [(_ & na & Ha & _) | (_ & ea & Ha & Hea)];
    destruct (quota_loop_cases qb)
      as [(_ & nb & Hb & _) | (_ & eb & Hb & Heb)];
    unfold resource_limits_from_quotas, trap, resource_limits_from_quotas_fn;
    rewrite quota_loop_app, ?Ha, ?Hb;
    cbn [mbind result_bind bind mret result_ret fst];
    rewrite ?Ha, ?Hb; cbn [mbind result_bind bind mret result_ret fst];
    rewrite ?Hea, ?Heb; done.
Qed.

End QuotasMore.

Lemma resource_limits_shape_witness :
  let limits := [limit_record "cpu" "4"; limit_record "memory" "64";
                 limit_record "nvidia-tesla-v100" "2"] in
  Forall limit_shaped limits ∧ (length limits ≤ 2 * 3)%nat.
Proof.
  apply (resource_limits_shape 16
           [quota "CPUS" (PyInt 4); quota "NVIDIA_V100_GPUS" (PyInt 2);
            quota "DISKS" (PyInt 10)]).
  reflexivity.
Defined.

(** A record without a limit voids the translation even when its metric
    is one that is ignored. *)
Example resource_limits_missing_limit :
  resource_limits_from_quotas 16
    [quota "CPUS" (PyInt 4); {[ "metric" := PyStr "DISKS" ]}]
  = Return None.
Proof. reflexivity. Qed.

(** ** The remote queriers *)

Lemma trap_unit_Return {B} (error_value : B) (r : result B) (v : B) :
  r = Return v → (trap error_value true (λ _ : unit, r) tt).1 = Return v.
Proof. intros ->. done. Qed.

Lemma trap_unit_Raise {B} (error_value : B) (r : result B) (e : exn) :
  r = Raise e → is_Exception e = true →
  (trap error_value true (λ _ : unit, r) tt).1 = Return error_value.
Proof. intros -> He. unfold trap. by rewrite He. Qed.

Lemma getitem_cases {V} (d : gmap string V) (key : string) :
  (∃ v, d !! key = Some v ∧ getitem d key = Return v) ∨
  (d !! key = None ∧ getitem d key = Raise KeyError).
Proof. unfold getitem. destruct (d !! key); eauto. Qed.

Lemma comprehension_cons {A B} (f : A → result B) (x : A) (l : list A) :
  comprehension f (x :: l)
  = (y ← f x; ys ← comprehension f l; mret (y :: ys)).
Proof. done. Qed.

Lemma comprehension_getitem (key : string) (l : list dict) :
  (∃ vs, comprehension (λ d, getitem d key) l = Return vs ∧
         Forall2 (λ d v, d !! key = Some v) l vs) ∨
  (comprehension (λ d, getitem d key) l = Raise KeyError ∧
   ¬ Forall (λ d, is_Some (d !! key)) l).
Proof.
  induction l as [|d l IH].
  { left. exists []. split; [done|constructor]. }
  rewrite comprehension_cons.
  destruct (getitem_cases d key) as [(v & Hd & ->) | [Hd ->]];
    cbn [mbind result_bind bind]; cycle 1.
  { right. split; [done|]. intros [[? ?] _]%Forall_cons. congruence. }
  destruct IH as [(vs & -> & Hvs) | [-> Hno]];
    cbn [mbind result_bind bind mret result_ret].
  - left. exists (v :: vs). split; [done|]. by constructor.
  - right. split; [done|]. by intros [_ ?]%Forall_cons.
Qed.

(** [get_tpu_drivers] returns a list exactly when the API answers with a
    response that has the field [tensorflowVersions] and every entry of
    it has a [version]; the list holds these versions, one per entry and
    in the order of the response. *)
Theorem get_tpu_drivers_exact (tpu_api : tpu_client)
    (project_id zone : string) (drivers : list pyval) :
  get_tpu_drivers tpu_api project_id zone = Return (Some drivers) ↔
  ∃ rsp versions,
    tensorflowVersions_list tpu_api
      ("projects/" +:+ project_id +:+ "/locations/" +:+ zone)
    = Executed (Some rsp) ∧
    rsp !! "tensorflowVersions" = Some versions ∧
    Forall2 (λ d v, d !! "version" = Some v) versions drivers.
Proof.
  unfold get_tpu_drivers, trap, get_tpu_drivers_fn, execute.
  destruct (tensorflowVersions_list tpu_api _) as [[rsp|]|e]; simpl.
  - destruct (getitem_cases rsp "tensorflowVersions")
      as [(versions & Hv & ->) | [Hv ->]]; simpl; cycle 1.
    { split; [done|]. intros (? & ? & [= <-] & ? & _). congruence. }
    destruct (comprehension_getitem "version" versions)
      as [(vs & -> & Hvs) | [-> Hno]]; simpl.
    + split.
      * intros [= <-]. by exists rsp, versions.
      * intros (? & ? & [= <-] & Hv' & Hd). do 2 f_equal.
        assert (x0 = versions) as -> by congruence.
        clear -Hvs Hd. revert drivers Hd.
        induction Hvs as [|d v l vs Hdv _ IH]; intros drivers Hd;
          inversion Hd; subst; [done|]. f_equal; [congruence|by apply IH].
    + split; [done|]. intros (? & ? & [= <-] & Hv' & Hd). destruct Hno.
      assert (x0 = versions) as -> by congruence.
      clear -Hd. induction Hd; constructor; eauto.
  - split; [done|]. by intros (? & ? & [=] & _).
  - split; [by destruct (is_Exception e)|]. by intros (? & ? & [=] & _).
Qed.

Lemma omap_length_le {A B} (f : A → option B) (l : list A) :
  (length (omap f l) ≤ length l)%nat.
Proof.
  induction l as [|x l IH]; [done|].
  change (omap f (x :: l))
    with (match f x with Some y => y :: omap f l | None => omap f l end).
  destruct (f x); simpl; lia.
Qed.

Lemma gke_tpu_to_tpuspec_returns (s : string) :
  ∃ o, gke_tpu_to_tpuspec s = Return o.
Proof.
  destruct (Re.tpu_re s) as [[version digits]|] eqn:Hm.
  - rewrite (gke_tpu_to_tpuspec_match _ _ _ Hm). eauto.
  - rewrite gke_tpu_to_tpuspec_no_match by done. eauto.
Qed.

Lemma tpu_types_loop_cases (types : list dict) (tpus : list TPUSpec) :
  (Forall (λ t, is_Some (t !! "type")) types ∧
   tpu_types_loop types tpus = Return (tpus ++ omap tpu_entry types)) ∨
  (¬ Forall (λ t, is_Some (t !! "type")) types ∧
   tpu_types_loop types tpus = Raise KeyError).
Proof.
  revert tpus. induction types as [|t types IH]; intros tpus; simpl.
  { left. by rewrite (right_id_L [] (++)). }
  unfold getitem, tpu_entry.
  destruct (t !! "type") as [type|] eqn:Ht; cycle 1.
  { right. split; [|done]. intros [[? ?] _]%Forall_cons. congruence. }
  cbn [mbind result_bind bind].
  assert (∃ o, gke_tpu_to_tpuspec_call type = Return o ∧
               o = match type with
                   | PyStr s => match gke_tpu_to_tpuspec s with
                                | Return o => o
                                | Raise _ => None
                                end
                   | _ => None
                   end) as (o & -> & Ho).
  { destruct type as [z|x|s|]; simpl; [by eauto|by eauto| |by eauto].
    destruct (gke_tpu_to_tpuspec_returns s) as [o ->]. eauto. }
  cbn [mbind result_bind bind]. rewrite <-Ho.
  destruct o as [spec|];
    (destruct (IH (match Some spec with Some _ => tpus ++ [spec] | None => tpus
                   end)) as [[Hall ->] | [Hno ->]]
     || destruct (IH tpus) as [[Hall ->] | [Hno ->]]).
  - left. split; [constructor; eauto|]. by rewrite <-(assoc_L (++)).
  - right. split; [|done]. by intros [_ ?]%Forall_cons.
  - left. split; [constructor; eauto|done].
  - right. split; [|done]. by intros [_ ?]%Forall_cons.
Qed.

(** [get_zone_tpu_types] keeps, in the order of the response, the specs
    of the entries whose [type] [gke_tpu_to_tpuspec] converts and drops
    the other entries without a trace; but one entry that has no [type]
    at all makes the whole result [None]. *)
Theorem get_zone_tpu_types_filters (tpu_api : tpu_client)
    (project_id zone : string) (rsp : response) (types : list dict) :
  tpu_acceleratorTypes_list tpu_api
    ("projects/" +:+ project_id +:+ "/locations/" +:+ zone)
  = Executed (Some rsp) →
  rsp !! "acceleratorTypes" = Some types →
  get_zone_tpu_types tpu_api project_id zone
  = Return (if decide (Forall (λ t, is_Some (t !! "type")) types)
            then Some (omap tpu_entry types) else None) ∧
  (length (omap tpu_entry types) ≤ length types)%nat.
Proof.
  intros Hx Ht. split; [|apply omap_length_le].
  unfold get_zone_tpu_types, trap, get_zone_tpu_types_fn, execute.
  rewrite Hx. cbn [mbind result_bind bind subscript]. unfold getitem.
  rewrite Ht. cbn [mbind result_bind bind].
  destruct (tpu_types_loop_cases types []) as [[Hall ->] | [Hno ->]].
  - by rewrite decide_True.
  - by rewrite decide_False.
Qed.

Lemma get_zone_tpu_types_filters_witness :
  get_zone_tpu_types sample_tpu_client "project" "us-central1-a"
  = Return (Some [mkTPUSpec V2 8; mkTPUSpec V3 32]) ∧
  (2 ≤ 3)%nat.
Proof.
  destruct (get_zone_tpu_types_filters sample_tpu_client "project"
              "us-central1-a"
              {[ "acceleratorTypes" :=
                   [ {[ "type" := PyStr "v2-8" ]};
                     {[ "type" := PyStr "v4-16" ]};
                     {[ "type" := PyStr "v3-32" ]} ] ]}
              [ {[ "type" := PyStr "v2-8" ]};
                {[ "type" := PyStr "v4-16" ]};
                {[ "type" := PyStr "v3-32" ]} ]) as [Hr Hlen];
    [reflexivity..|].
  split; [|exact Hlen]. rewrite Hr.
  rewrite decide_True by (repeat constructor; eexists; reflexivity).
  reflexivity.
Defined.

Section QueriersMore.

Context {GPU : Type} `{Countable GPU} `{!PyEnum GPU}.
Variable MAX_GB_PER_CPU : Z.

Lemma gpu_types_loop_items (items : list dict)
    (kept : list (option (GPUSpec GPU))) (gpus : list (GPUSpec GPU)) :
  Forall2 gpu_item items kept →
  gpu_types_loop items gpus = Return (gpus ++ omap id kept).
Proof.
  intros Hitems. revert gpus.
  induction Hitems as [|x o items kept Hx _ IH]; intros gpus; simpl.
  { by rewrite (right_id_L [] (++)). }
  unfold getitem.
  destruct Hx as [name Hname Hcall | name g cards n Hname Hcall Hcards Hn];
    rewrite Hname; cbn [mbind result_bind bind]; rewrite Hcall;
    cbn [mbind result_bind bind].
  - apply IH.
  - rewrite Hcards. cbn [mbind result_bind bind]. rewrite Hn.
    cbn [mbind result_bind bind]. rewrite IH.
    by rewrite <-(assoc_L (++)).
Qed.

(** [get_zone_gpu_types] keeps, in the order of the response, the items
    whose name [gke_gpu_to_gpu] converts, each with its maximum count,
    and skips the other items before anything else of them is read: an
    item of an unknown accelerator may lack a count. *)
Theorem get_zone_gpu_types_items (project_id zone : string)
    (compute_api : compute_client) (rsp : response) (items : list dict)
    (kept : list (option (GPUSpec GPU))) :
  acceleratorTypes_list compute_api project_id zone = Executed (Some rsp) →
  rsp !! "items" = Some items →
  Forall2 gpu_item items kept →
  get_zone_gpu_types project_id zone compute_api
  = Return (Some (omap id kept)).
Proof.
  intros Hx Hi Hitems.
  unfold get_zone_gpu_types, trap, get_zone_gpu_types_fn, execute.
  rewrite Hx. cbn [mbind result_bind bind subscript]. unfold getitem.
  rewrite Hi. cbn [mbind result_bind bind].
  by rewrite (gpu_types_loop_items items kept []).
Qed.

(** An item of a known accelerator whose count is missing, or is not
    accepted by [int()], voids the whole listing. *)
Theorem get_zone_gpu_types_bad_count (project_id zone : string)
    (compute_api : compute_client) (rsp : response)
    (pre : list dict) (x : dict) (post : list dict)
    (kept : list (option (GPUSpec GPU))) (name : pyval) (g : GPU) :
  acceleratorTypes_list compute_api project_id zone = Executed (Some rsp) →
  rsp !! "items" = Some (pre ++ x :: post) →
  Forall2 gpu_item pre kept →
  x !! "name" = Some name → gke_gpu_to_gpu_call name = Return (Some g) →
  (x !! "maximumCardsPerInstance" = None ∨
   ∃ cards e, x !! "maximumCardsPerInstance" = Some cards ∧
              int cards = Raise e) →
  get_zone_gpu_types project_id zone compute_api = Return None.
Proof.
  intros Hx Hi Hpre Hname Hcall Hbad.
  assert (∃ e, is_Exception e = true ∧
               ∀ gpus, gpu_types_loop (pre ++ x :: post) gpus = Raise e)
    as (e & He & Hloop).
  { assert (∃ e, is_Exception e = true ∧
                 ∀ gpus, gpu_types_loop (x :: post) gpus = Raise e)
      as (e & He & Hloop).
    { destruct Hbad as [Hc | (cards & e & Hc & Hint)].
      - exists KeyError. split; [done|]. intros gpus. simpl. unfold getitem.
        rewrite Hname. cbn [mbind result_bind bind]. rewrite Hcall.
        cbn [mbind result_bind bind]. by rewrite Hc.
      - exists e. split; [by eapply int_raises|]. intros gpus. simpl.
        unfold getitem. rewrite Hname. cbn [mbind result_bind bind].
        rewrite Hcall. cbn [mbind result_bind bind]. rewrite Hc.
        cbn [mbind result_bind bind]. by rewrite Hint. }
    exists e. split; [done|]. clear -Hpre Hloop.
    induction Hpre as [|y o pre kept Hy _ IH]; intros gpus; [apply Hloop|].
    simpl.
    unfold getitem.
    destruct Hy as [nm Hnm Hc | nm g' cards n Hnm Hc Hcards Hn];
      rewrite Hnm; cbn [mbind result_bind bind]; rewrite Hc;
      cbn [mbind result_bind bind]; [apply IH|].
    rewrite Hcards. cbn [mbind result_bind bind]. rewrite Hn.
    cbn [mbind result_bind bind]. apply IH. }
  unfold get_zone_gpu_types, trap, get_zone_gpu_types_fn, execute.
  rewrite Hx. cbn [mbind result_bind bind subscript]. unfold getitem.
  rewrite Hi. cbn [mbind result_bind bind]. rewrite Hloop.
  cbn [mbind result_bind bind]. by rewrite He.
Qed.

Lemma resource_limits_from_quotas_returns (quotas : list dict) :
  ∃ o, resource_limits_from_quotas MAX_GB_PER_CPU quotas = Return o.
Proof.
  destruct (resource_limits_from_quotas_cases MAX_GB_PER_CPU quotas)
    as [(_ & limits & _ & -> & _) | (_ & _ & ->)]; eauto.
Qed.

(** [generate_resource_limits] is the translation of the quotas of the
    region's response; a response without the field [quotas] counts as
    one with no quota and gives the empty list, not [None]. *)
Theorem generate_resource_limits_composes (project_id region : string)
    (compute_api : compute_client) (rsp : response) :
  regions_get compute_api project_id region = Executed (Some rsp) →
  generate_resource_limits MAX_GB_PER_CPU project_id region compute_api
  = resource_limits_from_quotas MAX_GB_PER_CPU (default [] (rsp !! "quotas"))
  ∧ (rsp !! "quotas" = None →
     generate_resource_limits MAX_GB_PER_CPU project_id region compute_api
     = Return (Some [])).
Proof.
  intros Hx.
  assert (generate_resource_limits MAX_GB_PER_CPU project_id region
            compute_api
          = resource_limits_from_quotas MAX_GB_PER_CPU
              (default [] (rsp !! "quotas"))) as Hgen.
  { unfold generate_resource_limits, generate_resource_limits_fn,
      get_region_quotas, get_region_quotas_fn, execute.
    rewrite Hx. unfold trap at 2.
    cbn [mbind result_bind bind mret result_ret fst].
    destruct (resource_limits_from_quotas_returns
                (default [] (rsp !! "quotas"))) as [o Ho].
    unfold trap. by rewrite Ho. }
  split; [done|]. intros Hq. rewrite Hgen, Hq. done.
Qed.

(** When the API gives no response, because [execute()] raises an
    exception derived from [Exception] or returns [None], each querier
    returns [None]. *)
Theorem queriers_unavailable (tpu_api : tpu_client)
    (compute_api : compute_client) (project_id place : string) :
  (unavailable (tensorflowVersions_list tpu_api
      ("projects/" +:+ project_id +:+ "/locations/" +:+ place)) →
   get_tpu_drivers tpu_api project_id place = Return None) ∧
  (unavailable (tpu_acceleratorTypes_list tpu_api
      ("projects/" +:+ project_id +:+ "/locations/" +:+ place)) →
   get_zone_tpu_types tpu_api project_id place = Return None) ∧
  (unavailable (acceleratorTypes_list compute_api project_id place) →
   get_zone_gpu_types project_id place compute_api = Return None) ∧
  (unavailable (regions_get compute_api project_id place) →
   get_region_quotas project_id place compute_api = Return None ∧
   generate_resource_limits MAX_GB_PER_CPU project_id place compute_api
   = Return None).
Proof.
  split_and!.
  - unfold get_tpu_drivers, trap, get_tpu_drivers_fn, execute.
    by intros [-> | (e & -> & He)]; simpl; rewrite ?He.
  - unfold get_zone_tpu_types, trap, get_zone_tpu_types_fn, execute.
    by intros [-> | (e & -> & He)]; simpl; rewrite ?He.
  - unfold get_zone_gpu_types, trap, get_zone_gpu_types_fn, execute.
    by intros [-> | (e & -> & He)]; simpl; rewrite ?He.
  - unfold generate_resource_limits, generate_resource_limits_fn,
      get_region_quotas, trap, get_region_quotas_fn, execute.
    by intros [-> | (e & -> & He)]; simpl; rewrite ?He.
Qed.

End QueriersMore.

Lemma get_zone_gpu_types_items_witness :
  get_zone_gpu_types "project" "us-central1-a" sample_compute_client
  = Return (Some [mkGPUSpec V100 8; mkGPUSpec K80 4]).
Proof.
  apply (get_zone_gpu_types_items "project" "us-central1-a"
           sample_compute_client {[ "items" := sample_items ]} sample_items
           [Some (mkGPUSpec V100 8); None; Some (mkGPUSpec K80 4)]).
  - reflexivity.
  - reflexivity.
  - repeat constructor.
    + by eapply (gpu_item_kept _ (PyStr "nvidia-tesla-v100") V100 (PyInt 8)).
    + by eapply (gpu_item_skipped _ (PyStr "nvidia-tesla-p100-vws")).
    + by eapply (gpu_item_kept _ (PyStr "nvidia-tesla-k80") K80 (PyStr "4")).
Defined.

Lemma get_zone_gpu_types_bad_count_witness :
  get_zone_gpu_types "project" "us-central1-a"
    {| acceleratorTypes_list _ _ :=
         Executed (Some {[ "items" :=
                             [ {[ "name" := PyStr "nvidia-tesla-p4" ]};
                               {[ "name" := PyStr "nvidia-tesla-v100" ]} ] ]});
       regions_get _ _ := Executed None |}
  = Return (None : option (list (GPUSpec TeslaGPU))).
Proof.
  eapply (get_zone_gpu_types_bad_count "project" "us-central1-a" _
            {[ "items" := [ {[ "name" := PyStr "nvidia-tesla-p4" ]};
                            {[ "name" := PyStr "nvidia-tesla-v100" ]} ] ]}
            [ {[ "name" := PyStr "nvidia-tesla-p4" ]} ]
            {[ "name" := PyStr "nvidia-tesla-v100" ]} []
            [None] (PyStr "nvidia-tesla-v100") V100).
  - reflexivity.
  - reflexivity.
  - repeat constructor.
    by eapply (gpu_item_skipped _ (PyStr "nvidia-tesla-p4")).
  - reflexivity.
  - reflexivity.
  - by left.
Defined.

Lemma generate_resource_limits_composes_witness :
  generate_resource_limits 16 "project" "us-central1" sample_compute_client
  = Return (Some [limit_record "cpu" "4"; limit_record "memory" "64"]).
Proof.
  rewrite (proj1 (generate_resource_limits_composes 16 "project"
                    "us-central1" sample_compute_client
                    {[ "quotas" := [quota "CPUS" (PyInt 4);
                                    quota "DISKS" (PyInt 10)] ]} eq_refl)).
  reflexivity.
Defined.

Lemma queriers_unavailable_witness :
  get_tpu_drivers sample_tpu_client "project" "us-central1-a" = Return None.
Proof.
  apply (proj1 (queriers_unavailable 16 sample_tpu_client
                  sample_compute_client "project" "us-central1-a")).
  right. by exists HttpError.
Defined.

(** ** Concrete instances of the lemmas on strings without newline *)

Lemma last_char_newline (m : string) : last_char (m +:+ NL) = Some LF.
Proof.
  induction m as [|c m IH]; [done|]. rewrite string_app_cons. simpl.
  rewrite IH. by destruct m.
Qed.

Lemma no_newline (s m : string) :
  last_char s ≠ Some LF → s ≠ m +:+ NL.
Proof. intros Hs ->. by rewrite last_char_newline in Hs. Qed.

Lemma gke_gpu_to_gpu_case_sensitive_witness :
  gke_gpu_to_gpu (GPU:=TeslaGPU) ("nvidia-tesla-" +:+ "V100") = Return None.
Proof.
  apply (gke_gpu_to_gpu_case_sensitive "V100").
  - reflexivity.
  - intros m Hm. exfalso. revert Hm. apply no_newline. discriminate.
Defined.

Lemma resource_limits_from_quotas_translates_witness :
  resource_limits_from_quotas 16
    [quota "CPUS" (PyInt 4); quota "NVIDIA_V100_GPUS" (PyInt 2);
     quota "DISKS" (PyInt 10); quota "CPUS" (PyInt 4)]
  = Return (Some (concat
      [[limit_record "cpu" "4"; limit_record "memory" "64"];
       [limit_record "nvidia-tesla-v100" "2"];
       [];
       [limit_record "cpu" "4"; limit_record "memory" "64"]])).
Proof.
  apply (resource_limits_from_quotas_translates 16).
  - apply Forall2_cons_2; [|apply Forall2_cons_2; [|apply Forall2_cons_2;
      [|apply Forall2_cons_2; [|apply Forall2_nil_2]]]].
    + apply (translates_cpu 16 _ (PyInt 4) 4); reflexivity.
    + apply (translates_gpu 16 _ "NVIDIA_V100_GPUS" "V100" (PyInt 2));
        [reflexivity|split; [split; [discriminate|reflexivity]|reflexivity]
        |reflexivity].
    + apply (translates_other 16 _ "DISKS" (PyInt 10));
        [reflexivity|discriminate| |reflexivity].
      intros model [_ Hs]. discriminate Hs.
    + apply (translates_cpu 16 _ (PyInt 4) 4); reflexivity.
  - apply Forall_cons_2; [|apply Forall_cons_2; [|apply Forall_cons_2;
      [|apply Forall_cons_2; [|apply Forall_nil_2]]]];
      intros metric Hm m;
      (assert (last_char metric ≠ Some LF) as Hlast
         by (injection Hm as <-; discriminate));
      by apply no_newline.
Defined.
